(** * bungalows-map: the scrape / geocode / snapshot pipeline of [generate_map.py]

    A shallow embedding of the script and the properties its specification
    states about it.

    Conventions of the model.
    - A Python [str] is the list of its Unicode code points ([pystr]).
    - Character properties of ASCII are written out; those of the code points
      above U+007F come from the Unicode database of the interpreter, which
      is a parameter of the development (class [UnicodeData]).
    - A Python [float] is modelled by the rational number it denotes.
    - Everything outside the process (web pages, robots files, the Nominatim
      service, the clock) answers through an oracle that threads its own
      state (class [Remote]); library functions the script only calls
      (urlparse, urljoin, BeautifulSoup, geodesic, number formatting) are
      parameters as well (class [Libs]). *)

From Stdlib Require Import ZArith NArith QArith Qround Qabs Ascii String List Lia Lqa DecimalString.
From stdpp Require Import gmap list.

Local Open Scope N_scope.

(** ** Python strings *)

Abbreviation pystr := (list N).

(** Decoding of the UTF-8 bytes of a literal into code points. *)
Fixpoint utf8_decode (bs : list N) : list N :=
  match bs with
  | [] => []
  | b :: rest =>
      if b <? 128 then b :: utf8_decode rest
      else if b <? 224 then
        match rest with
        | c1 :: rest' => ((b - 192) * 64 + (c1 - 128)) :: utf8_decode rest'
        | _ => []
        end
      else if b <? 240 then
        match rest with
        | c1 :: c2 :: rest' =>
            ((b - 224) * 4096 + (c1 - 128) * 64 + (c2 - 128)) :: utf8_decode rest'
        | _ => []
        end
      else
        match rest with
        | c1 :: c2 :: c3 :: rest' =>
            ((b - 240) * 262144 + (c1 - 128) * 4096 + (c2 - 128) * 64 + (c3 - 128))
              :: utf8_decode rest'
        | _ => []
        end
  end.

(** [u "text"] is the Python literal ["text"]. *)
Definition u (s : string) : pystr :=
  utf8_decode (map N_of_ascii (list_ascii_of_string s)).

Definition chr (s : string) : N := hd 0 (u s).

Definition pystr_eqb (a b : pystr) : bool := bool_decide (a = b).

(** Truthiness of a string: [bool(s)]. *)
Definition truthy (s : pystr) : bool :=
  match s with [] => false | _ => true end.

(** [a or b] on strings. *)
Definition por (a b : pystr) : pystr := if truthy a then a else b.

(** f-strings are written with [++]; [startswith s p] is [s.startswith(p)]. *)
Fixpoint startswith (s p : pystr) {struct p} : bool :=
  match p, s with
  | [], _ => true
  | _ :: _, [] => false
  | a :: p', b :: s' => (a =? b) && startswith s' p'
  end.

(** [p in s] for strings: substring test. *)
Fixpoint contains (s p : pystr) : bool :=
  startswith s p ||
  match s with
  | [] => false
  | _ :: s' => contains s' p
  end.

(** ** The Unicode database above ASCII *)

Class UnicodeData := {
  (** [str.isspace] of one code point above U+007F *)
  uni_isspace : N -> bool;
  (** category Nd *)
  uni_isdecimal : N -> bool;
  (** [str.isalnum] *)
  uni_isalnum : N -> bool;
  (** [str.lower] and [str.upper] of a string that is not pure ASCII
      (these are not character-wise: final sigma, sharp s) *)
  uni_lower : pystr -> pystr;
  uni_upper : pystr -> pystr;
}.

Definition in_range (lo hi c : N) : bool := (lo <=? c) && (c <=? hi).

Definition is_ascii (c : N) : bool := c <? 128.
Definition ascii_upper_letter (c : N) : bool := in_range 65 90 c.
Definition ascii_lower_letter (c : N) : bool := in_range 97 122 c.
Definition ascii_letter (c : N) : bool := ascii_upper_letter c || ascii_lower_letter c.
Definition ascii_digit (c : N) : bool := in_range 48 57 c.

Definition ascii_tolower (c : N) : N := if ascii_upper_letter c then c + 32 else c.
Definition ascii_toupper (c : N) : N := if ascii_lower_letter c then c - 32 else c.

Section Strings.
Context {UD : UnicodeData}.

(** [\s] of a str pattern and the characters [str.strip()] removes:
    TAB LF VT FF CR, FS GS RS US, SPACE, and the database above ASCII. *)
Definition is_space (c : N) : bool :=
  if is_ascii c then in_range 9 13 c || in_range 28 31 c || (c =? 32)
  else uni_isspace c.

(** [\d] *)
Definition is_digit (c : N) : bool :=
  if is_ascii c then ascii_digit c else uni_isdecimal c.

(** [\w] *)
Definition is_word (c : N) : bool :=
  if is_ascii c then ascii_letter c || ascii_digit c || (c =? 95)
  else uni_isalnum c.

Definition lower (s : pystr) : pystr :=
  if forallb is_ascii s then map ascii_tolower s else uni_lower s.

Definition upper (s : pystr) : pystr :=
  if forallb is_ascii s then map ascii_toupper s else uni_upper s.

(** [s.strip()] and [s.strip(chars)] *)
Fixpoint lstrip_by (p : N -> bool) (s : pystr) : pystr :=
  match s with
  | [] => []
  | c :: s' => if p c then lstrip_by p s' else s
  end.

Definition strip_by (p : N -> bool) (s : pystr) : pystr :=
  rev (lstrip_by p (rev (lstrip_by p s))).

Definition strip (s : pystr) : pystr := strip_by is_space s.

End Strings.

(** ** Regular expressions: the backtracking matcher of [re]

    Patterns are kept as syntax trees; the matcher is the usual
    continuation-passing backtracking search, greedy and leftmost-first as
    in [re].  The repetitions of the script's patterns always consume at
    least one character per round; a round that consumes nothing ends the
    repetition. *)

Inductive regex :=
| Eps
| Cls (p : N -> bool)                      (* one character of a class *)
| Cat (r1 r2 : regex)
| Alt (r1 r2 : regex)
| Rep (lo : nat) (hi : option nat) (r : regex)   (* greedy r{lo,hi} *)
| Grp (i : nat) (r : regex)                (* capturing group number i *)
| WordB                                    (* \b *)
| Bos.                                     (* ^ *)

Record mstate := {
  m_prev : option N;                 (* the character before the position *)
  m_rest : pystr;                    (* the text from the position on *)
  m_pos : nat;
  m_caps : list (nat * (nat * nat))  (* group number, start and end *)
}.

Definition advance (c : N) (rest : pystr) (st : mstate) : mstate :=
  {| m_prev := Some c; m_rest := rest; m_pos := S (m_pos st); m_caps := m_caps st |}.

Definition set_cap (i a b : nat) (st : mstate) : mstate :=
  {| m_prev := m_prev st; m_rest := m_rest st; m_pos := m_pos st;
     m_caps := (i, (a, b)) :: m_caps st |}.

Definition more_allowed (hi : option nat) (n : nat) : bool :=
  match hi with
  | None => true
  | Some h => (n <? h)%nat
  end.

Section Regex.
Context {UD : UnicodeData}.

Definition word_opt (o : option N) : bool :=
  match o with
  | Some c => is_word c
  | None => false
  end.

Fixpoint rmatch (r : regex) (st : mstate) (k : mstate -> option mstate)
  {struct r} : option mstate :=
  match r with
  | Eps => k st
  | Cls p =>
      match m_rest st with
      | c :: rest' => if p c then k (advance c rest' st) else None
      | [] => None
      end
  | Cat r1 r2 => rmatch r1 st (fun st' => rmatch r2 st' k)
  | Alt r1 r2 =>
      match rmatch r1 st k with
      | Some x => Some x
      | None => rmatch r2 st k
      end
  | Rep lo hi r1 =>
      (fix loop (fuel n : nat) (st : mstate) {struct fuel} : option mstate :=
         let stop := if (lo <=? n)%nat then k st else None in
         match fuel with
         | O => stop
         | S fuel' =>
             if more_allowed hi n then
               match rmatch r1 st
                       (fun st' => if (m_pos st' =? m_pos st)%nat then None
                                   else loop fuel' (S n) st') with
               | Some x => Some x
               | None => stop
               end
             else stop
         end) (length (m_rest st)) O st
  | Grp i r1 => rmatch r1 st (fun st' => k (set_cap i (m_pos st) (m_pos st') st'))
  | WordB =>
      if xorb (word_opt (m_prev st)) (word_opt (head (m_rest st))) then k st else None
  | Bos => if (m_pos st =? 0)%nat then k st else None
  end.

(** A match object: where the match starts and ends, and its groups. *)
Record pymatch := {
  mt_start : nat;
  mt_end : nat;
  mt_after_prev : option N;
  mt_after : pystr;
  mt_caps : list (nat * (nat * nat))
}.

Definition try_at (r : regex) (prev : option N) (rest : pystr) (pos : nat)
  : option pymatch :=
  match rmatch r {| m_prev := prev; m_rest := rest; m_pos := pos; m_caps := [] |} Some with
  | Some st => Some {| mt_start := pos; mt_end := m_pos st;
                       mt_after_prev := m_prev st; mt_after := m_rest st;
                       mt_caps := m_caps st |}
  | None => None
  end.

(** Leftmost match at or after a position. *)
Fixpoint search_from (r : regex) (prev : option N) (rest : pystr) (pos : nat)
  : option pymatch :=
  match try_at r prev rest pos with
  | Some m => Some m
  | None =>
      match rest with
      | [] => None
      | c :: rest' => search_from r (Some c) rest' (S pos)
      end
  end.

(** [re.search(r, s)] and [re.match(r, s)] *)
Definition re_search (r : regex) (s : pystr) : option pymatch := search_from r None s O.
Definition re_match (r : regex) (s : pystr) : option pymatch := try_at r None s O.

Definition slice (s : pystr) (a b : nat) : pystr := firstn (b - a) (skipn a s).

Fixpoint cap_lookup (i : nat) (caps : list (nat * (nat * nat))) : option (nat * nat) :=
  match caps with
  | [] => None
  | (j, ab) :: caps' => if (i =? j)%nat then Some ab else cap_lookup i caps'
  end.

(** [m.group(i)] for a match [m] on the string [s]; group 0 is the match. *)
Definition group (s : pystr) (m : pymatch) (i : nat) : pystr :=
  match i with
  | O => slice s (mt_start m) (mt_end m)
  | _ => match cap_lookup i (mt_caps m) with
         | Some (a, b) => slice s a b
         | None => []
         end
  end.

(** [re.sub(r, repl, s)] for a literal replacement. *)
Fixpoint sub_loop (fuel : nat) (r : regex) (repl : pystr)
  (prev : option N) (rest : pystr) (pos : nat) : pystr :=
  match fuel with
  | O => rest
  | S fuel' =>
      match search_from r prev rest pos with
      | None => rest
      | Some m =>
          let before := firstn (mt_start m - pos) rest in
          if (mt_end m =? mt_start m)%nat then
            match skipn (mt_start m - pos) rest with
            | [] => before ++ repl
            | c :: rest' =>
                before ++ repl ++ c :: sub_loop fuel' r repl (Some c) rest' (S (mt_start m))
            end
          else
            before ++ repl ++ sub_loop fuel' r repl (mt_after_prev m) (mt_after m) (mt_end m)
      end
  end.

Definition re_sub (r : regex) (repl s : pystr) : pystr :=
  sub_loop (2 * length s + 2) r repl None s O.

(** [re.split(r, s)] for a pattern without groups.  The patterns of the
    script match at least one character; an empty match is not a split
    point. *)
Fixpoint split_loop (fuel : nat) (r : regex)
  (prev : option N) (rest : pystr) (pos : nat) (piece : pystr) : list pystr :=
  match fuel with
  | O => [piece ++ rest]
  | S fuel' =>
      match search_from r prev rest pos with
      | None => [piece ++ rest]
      | Some m =>
          let before := firstn (mt_start m - pos) rest in
          if (mt_end m =? mt_start m)%nat then
            match skipn (mt_start m - pos) rest with
            | [] => [piece ++ rest]
            | c :: rest' =>
                split_loop fuel' r (Some c) rest' (S (mt_start m)) (piece ++ before ++ [c])
            end
          else
            (piece ++ before)
              :: split_loop fuel' r (mt_after_prev m) (mt_after m) (mt_end m) []
      end
  end.

Definition re_split (r : regex) (s : pystr) : list pystr :=
  split_loop (length s + 1) r None s O [].

(** *** Pattern syntax *)

Definition Chr (c : N) : regex := Cls (N.eqb c).
Definition Lit (s : pystr) : regex := fold_right (fun c r => Cat (Chr c) r) Eps s.
Definition Plus (r : regex) : regex := Rep 1 None r.
Definition Star (r : regex) : regex := Rep 0 None r.
Definition Opt (r : regex) : regex := Rep 0 (Some 1%nat) r.
Definition Times (n : nat) (r : regex) : regex := Rep n (Some n) r.
Definition Seq (rs : list regex) : regex := fold_right Cat Eps rs.
Definition AnyOf (ps : list (N -> bool)) : regex := Cls (fun c => existsb (fun p => p c) ps).
Definition NoneOf (ps : list (N -> bool)) : regex := Cls (fun c => negb (existsb (fun p => p c) ps)).

(** [.]: any character but a line feed *)
Definition Dot : regex := Cls (fun c => negb (c =? 10)).

(** With [re.IGNORECASE] on a str pattern, an ASCII letter also matches the
    letters whose simple case mapping is that letter: U+0130 and U+0131 for
    i, U+017F for s, U+212A for k. *)
Definition case_kin (c x : N) : bool :=
  ((ascii_tolower c =? 105) && ((x =? 304) || (x =? 305)))
  || ((ascii_tolower c =? 115) && (x =? 383))
  || ((ascii_tolower c =? 107) && (x =? 8490)).

Definition chr_i (c x : N) : bool :=
  if ascii_letter c then
    (is_ascii x && (ascii_tolower x =? ascii_tolower c)) || case_kin c x
  else x =? c.

Definition LitI (s : pystr) : regex := fold_right (fun c r => Cat (Cls (chr_i c)) r) Eps s.

(** [[A-Z]] or [[a-z]] under [re.IGNORECASE]: the 52 ASCII letters and the
    four letters above. *)
Definition letter_i (x : N) : bool :=
  ascii_letter x || (x =? 304) || (x =? 305) || (x =? 383) || (x =? 8490).

End Regex.

(** ** CONFIG *)

Definition RADIUS_KM : Q := 100 # 1.
Definition CENTER_NAME : pystr := u "Valkenburg aan de Geul, Nederland".
Definition CENTER_FALLBACK_LATLON : Q * Q := (50865 # 1000, 5832 # 1000).

Definition OUT_SNAPSHOT_CSV : pystr := u "bungalows_snapshot.csv".
Definition OUT_NEW_CSV : pystr := u "bungalows_new.csv".
Definition OUT_MAP_HTML : pystr := u "bungalows_map.html".

Definition KEYWORDS : list pystr := [].

Definition USER_AGENT : pystr := u "Mozilla/5.0 (compatible; ImmoWatchSnapshot/1.3)".

Definition SITES : list pystr :=
  [u "https://www.funda.nl/zoeken/koop?selected_area=[%22regio-zuid-limburg,50km%22]&object_type=[%22house%22]&object_type_house=[%22bungalow%22]&publication_date=%2210%22&bedrooms=%222-%22"].

Definition COLUMNS : list pystr :=
  [u "scraped_at"; u "source"; u "title"; u "price_text"; u "location_text";
   u "since_text"; u "url"; u "municipality"; u "lat"; u "lon"; u "distance_km"].

(** ** MODEL *)

Record Row := {
  scraped_at : pystr;
  source : pystr;
  title : pystr;
  price_text : pystr;
  location_text : pystr;
  since_text : pystr;
  url : pystr;
  municipality : pystr;
  lat : option Q;
  lon : option Q;
  distance_km : option Q
}.

(** [str.split(sep)] for a non-empty separator ([skip] counts the characters
    of an occurrence still to be passed over). *)
Fixpoint str_split_aux (sep s piece : pystr) (skip : nat) : list pystr :=
  match skip with
  | S k =>
      match s with
      | [] => [piece]
      | _ :: s' => str_split_aux sep s' piece k
      end
  | O =>
      if startswith s sep then
        match s with
        | [] => [piece]
        | _ :: s' => piece :: str_split_aux sep s' [] (length sep - 1)
        end
      else
        match s with
        | [] => [piece]
        | c :: s' => str_split_aux sep s' (piece ++ [c]) O
        end
  end.

(** An empty separator raises ValueError in Python; the script never passes
    one. *)
Definition str_split (s sep : pystr) : list pystr :=
  match sep with
  | [] => [s]
  | _ => str_split_aux sep s [] O
  end.

(** [s.replace(a, b)] for single characters *)
Definition replace_chr (a b : N) (s : pystr) : pystr :=
  map (fun c => if c =? a then b else c) s.

Section Address.
Context {UD : UnicodeData}.

(** ** HELPERS *)

Definition norm (s : pystr) : pystr :=
  strip (re_sub (Plus (Cls is_space)) (u " ") s).

(** ** GEO: address parsing *)

(** [\b(\d{4})\s*([A-Z]{2})\b] with [re.IGNORECASE] *)
Definition POSTCODE_RE : regex :=
  Seq [WordB; Grp 1 (Times 4 (Cls is_digit)); Star (Cls is_space);
       Grp 2 (Times 2 (Cls letter_i)); WordB].

(** The first definition of the name in the file (lines 263-267); the second
    one below replaces it before any call is made. *)
Definition extract_postcode_shadowed (text : pystr) : pystr :=
  match re_search POSTCODE_RE text with
  | None => []
  | Some m => group text m 1 ++ u " " ++ upper (group text m 2)
  end.

(** [\b\d{4}\s*[A-Z]{2}\s+([A-Za-zÀ-ÿ'`\- ]{2,})] *)
Definition PLACE_RE : regex :=
  Seq [WordB; Times 4 (Cls is_digit); Star (Cls is_space);
       Times 2 (Cls ascii_upper_letter); Plus (Cls is_space);
       Grp 1 (Rep 2 None
                (AnyOf [ascii_upper_letter; ascii_lower_letter; in_range 192 255;
                        N.eqb (chr "'"); N.eqb (chr "`"); N.eqb (chr "-");
                        N.eqb (chr " ")]))].

(** [\s+€|\s+\d+\s*m²|\s+k\.k\.|\s+v\.o\.n\.|\s+[A-Z]\s+] *)
Definition PLACE_NOISE_RE : regex :=
  Alt (Seq [Plus (Cls is_space); Lit (u "€")])
 (Alt (Seq [Plus (Cls is_space); Plus (Cls is_digit); Star (Cls is_space); Lit (u "m²")])
 (Alt (Seq [Plus (Cls is_space); Lit (u "k.k.")])
 (Alt (Seq [Plus (Cls is_space); Lit (u "v.o.n.")])
      (Seq [Plus (Cls is_space); Cls ascii_upper_letter; Plus (Cls is_space)])))).

Definition extract_place_from_location_text (location_text : pystr) : pystr :=
  if negb (truthy location_text) then []
  else
    match re_search PLACE_RE location_text with
    | None => []
    | Some m =>
        let place := group location_text m 1 in
        let place := hd [] (re_split PLACE_NOISE_RE place) in
        norm place
    end.

(** [funda\.nl/detail/koop/([^/]+)/] *)
Definition FUNDA_PLACE_RE : regex :=
  Seq [Lit (u "funda.nl/detail/koop/"); Grp 1 (Plus (NoneOf [N.eqb (chr "/")]));
       Lit (u "/")].

Definition extract_place_from_funda_url (url : pystr) : pystr :=
  match re_search FUNDA_PLACE_RE (lower url) with
  | None => []
  | Some m => replace_chr (chr "-") (chr " ") (group (lower url) m 1)
  end.

(** The definition in force (lines 299-301): no case normalisation. *)
Definition extract_postcode (text : pystr) : pystr :=
  match re_search POSTCODE_RE text with
  | Some m => group text m 1 ++ u " " ++ group text m 2
  | None => []
  end.

Definition extract_street_from_title (title : pystr) : pystr :=
  let pc := extract_postcode title in
  if negb (truthy pc) then []
  else
    let before := hd [] (str_split title pc) in
    norm before.

(** The final loop of [guess_address_variants]: normalise, drop empties and
    repetitions, keep the order. *)
Fixpoint uniq_norm (variants : list pystr) (out : list pystr) (seen : gset pystr)
  : list pystr :=
  match variants with
  | [] => out
  | v :: rest =>
      let v := norm v in
      if truthy v && negb (bool_decide (v ∈ seen))
      then uniq_norm rest (out ++ [v]) ({[v]} ∪ seen)
      else uniq_norm rest out seen
  end.

Definition guess_address_variants (row : Row) : list pystr :=
  let variants : list pystr := [] in
  let pc := por (extract_postcode (location_text row)) (extract_postcode (title row)) in
  let place := por (extract_place_from_location_text (location_text row))
                   (extract_place_from_funda_url (url row)) in
  let street := extract_street_from_title (title row) in
  let variants :=
    if truthy street && truthy pc && truthy place
    then variants ++ [street ++ u ", " ++ pc ++ u " " ++ place ++ u ", Nederland"]
    else variants in
  let variants :=
    if truthy pc && truthy place
    then variants ++ [pc ++ u " " ++ place ++ u ", Nederland"]
    else variants in
  let variants :=
    if truthy (title row) then variants ++ [title row ++ u ", Nederland"] else variants in
  let variants :=
    if truthy place then variants ++ [place ++ u ", Nederland"] else variants in
  let variants := variants ++ [u "Limburg, Nederland"] in
  uniq_norm variants [] ∅.

End Address.

(** ** The world outside the script *)

(** A geopy [Location], as far as the script reads it. *)
Record Location := { latitude : Q; longitude : Q }.

(** The [raw] attribute of a reverse-geocoded location: not a dict, or a
    dict whose ["address"] entry (absent or falsy: the empty map) maps
    field names to strings. *)
Inductive RawLocation :=
| RawOther
| RawDict (address : gmap pystr pystr).

(** What [reverse] can do: raise, find nothing, or return a location. *)
Inductive ReverseAnswer :=
| RevRaises
| RevNothing
| RevFound (raw : RawLocation).

(** An anchor of a parsed page with what the script asks of it:
    [a.get("href", "")], [a.get_text(" ", strip=True)] and the nearest
    [article]/[li]/[div] ancestor, of which the script reads the text and
    the text of the first element under a CSS selector. *)
Record Card := {
  card_text : pystr;
  card_select_one : pystr -> option pystr
}.

Record Anchor := {
  a_href : pystr;
  a_text : pystr;
  a_card : option Card
}.

Class Libs := {
  urlparse_scheme : pystr -> pystr;
  urlparse_netloc : pystr -> pystr;
  urljoin : pystr -> pystr -> pystr;
  (** [BeautifulSoup(html, "lxml").select("a[href]")] *)
  soup_anchors : pystr -> list Anchor;
  (** [geodesic(a, b).km] *)
  geodesic_km : Q * Q -> Q * Q -> Q;
  (** [f"{x:.nf}"] *)
  format_f : nat -> Q -> pystr;
  (** [str(x)] of a float, as the csv writer renders it *)
  str_float : Q -> pystr
}.

Class Remote := {
  remote : Type;
  (** [rp.read(); rp.can_fetch(agent, url)] for the robots file at
      [robots_url]; [None] when that raises *)
  robots_can_fetch : pystr -> pystr -> pystr -> remote -> option bool * remote;
  (** [requests.get] and [raise_for_status]: the page text, or the message
      of the exception *)
  http_get : pystr -> option pystr -> remote -> (pystr + pystr) * remote;
  (** the rate-limited [geolocator.geocode] *)
  nominatim_geocode : pystr -> remote -> option Location * remote;
  (** the rate-limited [geolocator.reverse] *)
  nominatim_reverse : Q * Q -> remote -> ReverseAnswer * remote;
  (** [datetime.utcnow().isoformat(timespec="seconds")] *)
  utcnow : remote -> pystr * remote
}.

(** Requests sent to the geocoding service, with the answer to a forward
    request. *)
Inductive Event :=
| EvGeocode (query : pystr) (answer : option Location)
| EvReverse (latlon : Q * Q).

(** A marker of the rendered map and the map document. *)
Record Marker := {
  mk_location : Q * Q;
  mk_popup : pystr;
  mk_tooltip : pystr
}.

Record MapDoc := {
  map_location : Q * Q;
  map_zoom_start : nat;
  map_markers : list Marker
}.

Section Pipeline.
Context {UD : UnicodeData} {LB : Libs} {RM : Remote}.

(** The state the script runs in.  A CSV file is the list of its records,
    each the list of its fields (quoting and line ends are the csv
    module's); a JSON cache file is the map it holds. *)
Record World := {
  w_remote : remote;
  w_csv : gmap pystr (list (list pystr));
  w_geo_json : option (gmap pystr (Q * Q));
  w_rev_json : option (gmap pystr pystr);
  w_html : gmap pystr MapDoc;
  w_out : list pystr;
  w_calls : list Event
}.

Definition M (A : Type) : Type := World -> A * World.

#[local] Instance M_ret : MRet M := fun A a w => (a, w).

#[local] Instance M_bind : MBind M :=
  fun A B f m w => let (a, w') := m w in f a w'.

Definition with_remote {A} (f : remote -> A * remote) (log : A -> list Event) : M A :=
  fun w =>
    let (a, rm) := f (w_remote w) in
    (a, {| w_remote := rm; w_csv := w_csv w; w_geo_json := w_geo_json w;
           w_rev_json := w_rev_json w; w_html := w_html w; w_out := w_out w;
           w_calls := w_calls w ++ log a |}).

(** [print(line)] *)
Definition print (line : pystr) : M unit :=
  fun w =>
    (tt, {| w_remote := w_remote w; w_csv := w_csv w; w_geo_json := w_geo_json w;
            w_rev_json := w_rev_json w; w_html := w_html w;
            w_out := w_out w ++ [line]; w_calls := w_calls w |}).

Definition geocode (addr : pystr) : M (option Location) :=
  with_remote (nominatim_geocode addr) (fun ans => [EvGeocode addr ans]).

Definition reverse (latlon : Q * Q) : M ReverseAnswer :=
  with_remote (nominatim_reverse latlon) (fun _ => [EvReverse latlon]).

(** [load_json_cache] and [save_json_cache], at [GEO_CACHE_JSON] and at
    [REV_CACHE_JSON]; a missing file loads as the empty dict. *)
Definition load_geo_cache : M (gmap pystr (Q * Q)) :=
  fun w => (default ∅ (w_geo_json w), w).

Definition load_rev_cache : M (gmap pystr pystr) :=
  fun w => (default ∅ (w_rev_json w), w).

Definition save_geo_cache (cache : gmap pystr (Q * Q)) : M unit :=
  fun w =>
    (tt, {| w_remote := w_remote w; w_csv := w_csv w; w_geo_json := Some cache;
            w_rev_json := w_rev_json w; w_html := w_html w; w_out := w_out w;
            w_calls := w_calls w |}).

Definition save_rev_cache (cache : gmap pystr pystr) : M unit :=
  fun w =>
    (tt, {| w_remote := w_remote w; w_csv := w_csv w; w_geo_json := w_geo_json w;
            w_rev_json := Some cache; w_html := w_html w; w_out := w_out w;
            w_calls := w_calls w |}).

(** [str(n)] of a count *)
Definition str_nat (n : nat) : pystr :=
  u (DecimalString.NilEmpty.string_of_uint (Nat.to_uint n)).

(** ** GEO: geocode, reverse, distance *)

Definition get_center_latlon : M (Q * Q) :=
  loc ← geocode CENTER_NAME;
  match loc with
  | Some l => mret (latitude l, longitude l)
  | None => mret CENTER_FALLBACK_LATLON
  end.

(** [round(x)] to the nearest integer, ties to even *)
Definition round_half_even (q : Q) : Z :=
  let f := Qfloor q in
  match (q - inject_Z f ?= 1 # 2)%Q with
  | Lt => f
  | Gt => (f + 1)%Z
  | Eq => if Z.even f then f else (f + 1)%Z
  end.

(** [round(x, 1)] *)
Definition round1 (x : Q) : Q := Qmake (round_half_even (x * (10 # 1))) 10.

(** Lines 372-375: the first address variant the cache knows. *)
Fixpoint cached_variant (geo_cache : gmap pystr (Q * Q)) (addrs : list pystr)
  : option (Q * Q) :=
  match addrs with
  | [] => None
  | addr :: rest =>
      match geo_cache !! addr with
      | Some ll => Some ll
      | None => cached_variant geo_cache rest
      end
  end.

(** Lines 369-375 *)
Definition cached_latlon (geo_cache : gmap pystr (Q * Q)) (r : Row) : option (Q * Q) :=
  match geo_cache !! url r with
  | Some ll => Some ll
  | None => cached_variant geo_cache (guess_address_variants r)
  end.

(** Lines 379-384: ask the service for each variant until one answers. *)
Fixpoint geocode_variants (addrs : list pystr) : M (option (Q * Q * pystr)) :=
  match addrs with
  | [] => mret None
  | addr :: rest =>
      loc ← geocode addr;
      match loc with
      | Some l => mret (Some (latitude l, longitude l, addr))
      | None => geocode_variants rest
      end
  end.

(** Lines 365-395: the coordinates of a record and the cache afterwards;
    [None] is the [continue] of line 388. *)
Definition resolve_latlon (r : Row) (geo_cache : gmap pystr (Q * Q))
  : M (option (Q * Q) * gmap pystr (Q * Q)) :=
  match cached_latlon geo_cache r with
  | Some latlon => mret (Some latlon, geo_cache)
  | None =>
      found ← geocode_variants (guess_address_variants r);
      match found with
      | None =>
          print (u "[GEO FAIL] " ++ source r ++ u " | " ++ title r ++ u " | " ++ url r) ;;
          mret (None, geo_cache)
      | Some (lat, lon, used_addr) =>
          let geo_cache := <[url r := (lat, lon)]> geo_cache in
          let geo_cache := <[used_addr := (lat, lon)]> geo_cache in
          save_geo_cache geo_cache ;;
          mret (Some (lat, lon), geo_cache)
      end
  end.

Definition dict_get (d : gmap pystr pystr) (k : string) : pystr := default [] (d !! u k).

(** Lines 405-427 *)
Definition resolve_municipality (lat lon : Q) (rev_cache : gmap pystr pystr)
  : M (pystr * gmap pystr pystr) :=
  let rev_key := format_f 6 lat ++ u "," ++ format_f 6 lon in
  match rev_cache !! rev_key with
  | Some municipality => mret (municipality, rev_cache)
  | None =>
      loc ← reverse (lat, lon);
      match loc with
      | RevFound (RawDict addr) =>
          let municipality :=
            por (dict_get addr "municipality")
           (por (dict_get addr "city")
           (por (dict_get addr "town")
           (por (dict_get addr "village")
           (por (dict_get addr "county") [])))) in
          let rev_cache := <[rev_key := municipality]> rev_cache in
          save_rev_cache rev_cache ;;
          mret (municipality, rev_cache)
      | _ => mret ([], rev_cache)
      end
  end.

(** [dataclasses.replace(r, municipality=.., lat=.., lon=.., distance_km=..)] *)
Definition replace_geo (r : Row) (mun : pystr) (la lo d : Q) : Row :=
  {| scraped_at := scraped_at r; source := source r; title := title r;
     price_text := price_text r; location_text := location_text r;
     since_text := since_text r; url := url r;
     municipality := mun; lat := Some la; lon := Some lo; distance_km := Some d |}.

(** The body of the loop of [geocode_and_enrich_rows] (lines 365-435): the
    enriched record, or [None] where the body ends in [continue]. *)
Definition enrich_row (center_latlon : Q * Q) (r : Row)
  (geo_cache : gmap pystr (Q * Q)) (rev_cache : gmap pystr pystr)
  : M (option Row * gmap pystr (Q * Q) * gmap pystr pystr) :=
  '(latlon, geo_cache) ← resolve_latlon r geo_cache;
  match latlon with
  | None => mret (None, geo_cache, rev_cache)
  | Some (lat, lon) =>
      let dist_km := geodesic_km center_latlon (lat, lon) in
      if negb (Qle_bool dist_km RADIUS_KM) then mret (None, geo_cache, rev_cache)
      else
        '(municipality, rev_cache) ← resolve_municipality lat lon rev_cache;
        mret (Some (replace_geo r municipality lat lon (round1 dist_km)),
             geo_cache, rev_cache)
  end.

Fixpoint enrich_loop (center_latlon : Q * Q) (rows : list Row)
  (geo_cache : gmap pystr (Q * Q)) (rev_cache : gmap pystr pystr)
  (enriched : list Row) : M (list Row) :=
  match rows with
  | [] => mret enriched
  | r :: rest =>
      '(out, geo_cache, rev_cache) ← enrich_row center_latlon r geo_cache rev_cache;
      match out with
      | Some r' => enrich_loop center_latlon rest geo_cache rev_cache (enriched ++ [r'])
      | None => enrich_loop center_latlon rest geo_cache rev_cache enriched
      end
  end.

Definition geocode_and_enrich_rows (rows : list Row) : M (list Row) :=
  geo_cache ← load_geo_cache;
  rev_cache ← load_rev_cache;
  center_latlon ← get_center_latlon;
  enriched ← enrich_loop center_latlon rows geo_cache rev_cache [];
  print (u "[GEO] binnen " ++ format_f 0 RADIUS_KM ++ u " km: "
           ++ str_nat (length enriched) ++ u " / " ++ str_nat (length rows)) ;;
  mret enriched.

(** ** HELPERS: csv files *)

(** A value of [asdict(r)] *)
Inductive Cell :=
| CStr (s : pystr)
| CFloat (x : Q)
| CNone.

Definition cell_of_float (o : option Q) : Cell :=
  match o with
  | Some x => CFloat x
  | None => CNone
  end.

Definition asdict (r : Row) : list (pystr * Cell) :=
  [(u "scraped_at", CStr (scraped_at r)); (u "source", CStr (source r));
   (u "title", CStr (title r)); (u "price_text", CStr (price_text r));
   (u "location_text", CStr (location_text r)); (u "since_text", CStr (since_text r));
   (u "url", CStr (url r)); (u "municipality", CStr (municipality r));
   (u "lat", cell_of_float (lat r)); (u "lon", cell_of_float (lon r));
   (u "distance_km", cell_of_float (distance_km r))].

Fixpoint assoc_get {V} (k : pystr) (d : list (pystr * V)) : option V :=
  match d with
  | [] => None
  | (k', v) :: d' => if pystr_eqb k k' then Some v else assoc_get k d'
  end.

(** What the csv writer puts in a field: a string as it is, a float through
    [str], nothing for [None]. *)
Definition csv_field (c : Cell) : pystr :=
  match c with
  | CStr s => s
  | CFloat x => str_float x
  | CNone => []
  end.

(** [[d.get(c, "") for c in COLUMNS]] as written *)
Definition csv_record (r : Row) : list pystr :=
  map (fun c => csv_field (default (CStr []) (assoc_get c (asdict r)))) COLUMNS.

Definition write_csv (path : pystr) (rows : list Row) : M unit :=
  fun w =>
    (tt, {| w_remote := w_remote w;
            w_csv := <[path := COLUMNS :: map csv_record rows]> (w_csv w);
            w_geo_json := w_geo_json w; w_rev_json := w_rev_json w;
            w_html := w_html w; w_out := w_out w; w_calls := w_calls w |}).

(** The index of the last field of the header named [key]. *)
Fixpoint last_index (key : pystr) (fieldnames : list pystr) (i : nat) (found : option nat)
  : option nat :=
  match fieldnames with
  | [] => found
  | f :: rest =>
      last_index key rest (S i) (if pystr_eqb f key then Some i else found)
  end.

(** [row.get(key)] for a row of [csv.DictReader]: the dict pairs the header
    with the record, a later field of the same name replacing an earlier one
    and fields the record lacks being [None]. *)
Definition dictreader_get (fieldnames record : list pystr) (key : pystr) : option pystr :=
  match last_index key fieldnames O None with
  | Some i => record !! i
  | None => None
  end.

(** The rows of [csv.DictReader(f)]: the first record is the header, empty
    records are skipped. *)
Definition dictreader_rows (records : list (list pystr)) : list (list pystr) :=
  filter (fun rec => rec ≠ []) (tail records).

Definition load_prev_urls (path : pystr) : M (gset pystr) :=
  fun w =>
    match w_csv w !! path with
    | Some records =>
        let fieldnames := hd [] records in
        let url_of rec := default [] (dictreader_get fieldnames rec (u "url")) in
        (list_to_set
           (map (fun rec => strip (url_of rec))
                (filter (fun rec => startswith (url_of rec) (u "http") = true)
                        (dictreader_rows records))), w)
    | None => (∅, w)
    end.

Definition keyword_ok (text : pystr) : bool :=
  match KEYWORDS with
  | [] => true
  | _ => let t := lower text in forallb (fun k => contains t (lower k)) KEYWORDS
  end.

Definition absolute_url (base href : pystr) : pystr :=
  if startswith href (u "http") then href else urljoin base href.

Definition robots_allows (url : pystr) : M bool :=
  let robots_url := urlparse_scheme url ++ u "://" ++ urlparse_netloc url ++ u "/robots.txt" in
  ans ← with_remote (robots_can_fetch robots_url USER_AGENT url) (fun _ => []);
  match ans with
  | Some b => mret b
  | None => mret true
  end.

(** [fetch(url, referer)]: the text, or the message of what was raised *)
Definition fetch (url : pystr) (referer : option pystr) : M (pystr + pystr) :=
  with_remote (http_get url referer) (fun _ => []).

(** ** DOMAIN FILTERS *)

(** [^https?://(www\.)?funda\.nl/detail/koop/.+/huis-.+/\d+/?], IGNORECASE *)
Definition FUNDA_DETAIL_RE : regex :=
  Seq [Bos; LitI (u "http"); Opt (Cls (chr_i (chr "s"))); LitI (u "://");
       Opt (Grp 1 (LitI (u "www."))); LitI (u "funda.nl/detail/koop/");
       Plus Dot; LitI (u "/huis-"); Plus Dot; Chr (chr "/"); Plus (Cls is_digit);
       Opt (Chr (chr "/"))].

(** [^https?://woonpleinlimburg\.nl/koop/woonhuis/[^/]+/woonhuis-\d+-], IGNORECASE *)
Definition WOONPLEIN_DETAIL_RE : regex :=
  Seq [Bos; LitI (u "http"); Opt (Cls (chr_i (chr "s")));
       LitI (u "://woonpleinlimburg.nl/koop/woonhuis/");
       Plus (NoneOf [N.eqb (chr "/")]); LitI (u "/woonhuis-"); Plus (Cls is_digit);
       Chr (chr "-")].

Definition is_allowed_detail_url (site_host low_url : pystr) : bool :=
  if contains site_host (u "funda.nl") then bool_decide (is_Some (re_match FUNDA_DETAIL_RE low_url))
  else if contains site_host (u "woonpleinlimburg.nl")
       then bool_decide (is_Some (re_match WOONPLEIN_DETAIL_RE low_url))
  else false.

Definition is_bungalow_detail (url site_host : pystr) : M bool :=
  let referer := if contains site_host (u "funda.nl") then u "https://www.funda.nl/"
                 else u "https://woonpleinlimburg.nl/" in
  html ← fetch url (Some referer);
  match html with
  | inr _ => mret false
  | inl html =>
      let t := lower html in
      if contains t (u "je bent bijna op de pagina") || contains t (u "captcha")
         || contains t (u "cloudflare")
      then mret false
      else mret (contains t (u "bungalow"))
  end.

(** ** SCRAPE SEARCH PAGE *)

(** [€\s?[\d\.\,]+(?:\s*[a-z\.]+)?], IGNORECASE *)
Definition PRICE_RE : regex :=
  Seq [Chr (chr "€"); Opt (Cls is_space);
       Plus (AnyOf [is_digit; N.eqb (chr "."); N.eqb (chr ",")]);
       Opt (Seq [Star (Cls is_space); Plus (AnyOf [letter_i; N.eqb (chr ".")])])].

(** [\b\d{4}\s*[A-Z]{2}\b[^|•\n]{0,80}] *)
Definition LOCATION_RE : regex :=
  Seq [WordB; Times 4 (Cls is_digit); Star (Cls is_space);
       Times 2 (Cls ascii_upper_letter); WordB;
       Rep 0 (Some 80%nat) (NoneOf [N.eqb (chr "|"); N.eqb (chr "•"); N.eqb 10])].

(** [(\d+\s*(?:dagen?|uren?)\s*geleden|nieuw|vandaag|gisteren|\b\d{1,2}[-/]\d{1,2}[-/]\d{4}\b)],
    IGNORECASE *)
Definition SINCE_RE : regex :=
  Grp 1
    (Alt (Seq [Plus (Cls is_digit); Star (Cls is_space);
               Alt (Seq [LitI (u "dage"); Opt (Cls (chr_i (chr "n")))])
                   (Seq [LitI (u "ure"); Opt (Cls (chr_i (chr "n")))]);
               Star (Cls is_space); LitI (u "geleden")])
    (Alt (LitI (u "nieuw"))
    (Alt (LitI (u "vandaag"))
    (Alt (LitI (u "gisteren"))
         (Seq [WordB; Rep 1 (Some 2%nat) (Cls is_digit);
               AnyOf [N.eqb (chr "-"); N.eqb (chr "/")];
               Rep 1 (Some 2%nat) (Cls is_digit);
               AnyOf [N.eqb (chr "-"); N.eqb (chr "/")];
               Times 4 (Cls is_digit); WordB]))))).

Definition SKIP_WORDS : list pystr :=
  [u "mailto:"; u "tel:"; u "javascript:"; u "privacy"; u "cookie"; u "contact";
   u "login"; u "inloggen"].

Definition LOCATION_SELECTORS : list pystr :=
  [u ".location"; u ".address"; u ".plaats"; u ".place"; u "[class*=location]";
   u "[data-test*=location]"].

(** Lines 227-231: the text of the first element a selector finds. *)
Fixpoint first_selected (card : option Card) (sels : list pystr) : pystr :=
  match sels with
  | [] => []
  | sel :: rest =>
      match (match card with Some c => card_select_one c sel | None => None end) with
      | Some text => norm text
      | None => first_selected card rest
      end
  end.

(** The body of the loop over the anchors (lines 201-254): the record the
    anchor yields, or [None] where the body ends in [continue]. *)
Definition scrape_anchor (search_url site_host now : pystr) (a : Anchor) : option Row :=
  let href := a_href a in
  let title := norm (a_text a) in
  if negb (truthy href) || (length title <? 4)%nat then None
  else
    let url := absolute_url search_url href in
    let low := lower url in
    if existsb (fun x => contains low x) SKIP_WORDS then None
    else if negb (is_allowed_detail_url site_host low) then None
    else
      let card := a_card a in
      let card_text := norm (match card with Some c => card_text c | None => title end) in
      if negb (keyword_ok (title ++ u " " ++ card_text)) then None
      else
        let price_text :=
          match re_search PRICE_RE card_text with
          | Some mp => norm (group card_text mp 0)
          | None => []
          end in
        let location_text := first_selected card LOCATION_SELECTORS in
        let location_text :=
          if negb (truthy location_text) then
            match re_search LOCATION_RE card_text with
            | Some mloc => norm (group card_text mloc 0)
            | None => location_text
            end
          else location_text in
        let since_text :=
          match re_search SINCE_RE card_text with
          | Some ms => norm (group card_text ms 1)
          | None => []
          end in
        Some {| scraped_at := now; source := site_host; title := title;
                price_text := price_text; location_text := location_text;
                since_text := since_text; url := url;
                municipality := []; lat := None; lon := None; distance_km := None |}.

(** A dict from URLs to records keeps the order of first insertion:
    an association list.  [setdefault d k v] is [d.setdefault(k, v)]. *)
Definition setdefault (d : list (pystr * Row)) (k : pystr) (v : Row) : list (pystr * Row) :=
  match assoc_get k d with
  | Some _ => d
  | None => d ++ [(k, v)]
  end.

(** [list(d.values())] *)
Definition dict_values (d : list (pystr * Row)) : list Row := map snd d.

(** The loop of lines 200-254 over the records the anchors yield. *)
Definition collect_results (candidates : list Row) : list (pystr * Row) :=
  fold_left (fun results r => setdefault results (url r) r) candidates [].

Definition scrape_search_page (search_url html : pystr) : M (list Row) :=
  now ← with_remote utcnow (fun _ => []);
  let site_host := lower (urlparse_netloc search_url) in
  let results :=
    collect_results (omap (scrape_anchor search_url site_host now) (soup_anchors html)) in
  mret (dict_values results).

(** ** MAP *)

(** [[r for r in rows if r.lat is not None and r.lon is not None]], each
    record with its two coordinates. *)
Definition with_coords (rows : list Row) : list (Row * (Q * Q)) :=
  omap (fun r => match lat r, lon r with
                 | Some la, Some lo => Some (r, (la, lo))
                 | _, _ => None
                 end) rows.

Definition Qsum (xs : list Q) : Q := fold_left Qplus xs 0%Q.

Definition marker_of (p : Row * (Q * Q)) : Marker :=
  let r := fst p in
  let mun := por (municipality r) (u "Onbekende gemeente") in
  let dist := match distance_km r with
              | Some d => format_f 1 d ++ u " km"
              | None => []
              end in
  let popup_html :=
    u "<b>" ++ title r ++ u "</b><br>" ++ price_text r ++ u "<br>"
      ++ u "<i>" ++ mun ++ u "</i> — " ++ dist ++ u "<br>"
      ++ u "<a href='" ++ url r ++ u "' target='_blank'>link</a>" in
  {| mk_location := snd p;
     mk_popup := popup_html;
     mk_tooltip :=
       strip_by (fun c => (c =? chr " ") || (c =? chr "|")) (mun ++ u " | " ++ price_text r) |}.

Definition save_map (path : pystr) (m : MapDoc) : M unit :=
  fun w =>
    (tt, {| w_remote := w_remote w; w_csv := w_csv w; w_geo_json := w_geo_json w;
            w_rev_json := w_rev_json w; w_html := <[path := m]> (w_html w);
            w_out := w_out w; w_calls := w_calls w |}).

Definition write_map (rows : list Row) : M unit :=
  let rows := with_coords rows in
  match rows with
  | [] => print (u "[WARN] Geen punten om te plotten.")
  | _ =>
      let n := inject_Z (Z.of_nat (length rows)) in
      let avg_lat := (Qsum (map (fun p => fst (snd p)) rows) / n)%Q in
      let avg_lon := (Qsum (map (fun p => snd (snd p)) rows) / n)%Q in
      save_map OUT_MAP_HTML
        {| map_location := (avg_lat, avg_lon); map_zoom_start := 9;
           map_markers := map marker_of rows |} ;;
      print (u "[INFO] Kaart geschreven: " ++ OUT_MAP_HTML)
  end.

(** ** MAIN *)

(** The loop over the sites (lines 486-503). *)
Fixpoint scrape_sites (sites : list pystr) (all_rows : list Row) : M (list Row) :=
  match sites with
  | [] => mret all_rows
  | search_url :: rest =>
      robots_allows search_url ≫= fun allowed : bool =>
      if negb allowed then
        print (u "[SKIP robots] " ++ search_url) ;;
        scrape_sites rest all_rows
      else
        let referer := if contains search_url (u "funda.nl") then u "https://www.funda.nl/"
                       else u "https://woonpleinlimburg.nl/" in
        html ← fetch search_url (Some referer);
        rows ← match html with
               | inl html =>
                   rows ← scrape_search_page search_url html;
                   print (u "[INFO] " ++ urlparse_netloc search_url ++ u ": "
                            ++ str_nat (length rows) ++ u " detail links") ;;
                   mret rows
               | inr e =>
                   print (u "[ERROR] " ++ search_url ++ u " -> " ++ e) ;;
                   mret []
               end;
        scrape_sites rest (all_rows ++ rows)
  end.

(** Lines 506-509 *)
Definition dedup_rows (all_rows : list Row) : list Row :=
  dict_values (fold_left (fun uniq r => setdefault uniq (url r) r) all_rows []).

(** Lines 513-522 *)
Fixpoint filter_bungalows (detail_rows filtered_rows : list Row) : M (list Row) :=
  match detail_rows with
  | [] => mret filtered_rows
  | r :: rest =>
      if contains (source r) (u "funda.nl") then filter_bungalows rest (filtered_rows ++ [r])
      else
        is_bungalow_detail (url r) (source r) ≫= fun ok : bool =>
        filter_bungalows rest (if ok then filtered_rows ++ [r] else filtered_rows)
  end.

(** Lines 484-525: from the sites to the enriched records. *)
Definition gather_enriched (sites : list pystr) : M (list Row) :=
  all_rows ← scrape_sites sites [];
  let detail_rows := dedup_rows all_rows in
  filtered_rows ← filter_bungalows detail_rows [];
  geocode_and_enrich_rows filtered_rows.

(** Line 529 *)
Definition new_rows (prev_urls : gset pystr) (enriched_rows : list Row) : list Row :=
  filter (fun r => url r ∉ prev_urls) enriched_rows.

(** [run()] over a list of sites; [run] itself reads [SITES]. *)
Definition run_sites (sites : list pystr) : M unit :=
  match sites with
  | [] => print (u "Geen sites in SITES[]")
  | _ =>
      prev_urls ← load_prev_urls OUT_SNAPSHOT_CSV;
      enriched_rows ← gather_enriched sites;
      write_csv OUT_SNAPSHOT_CSV enriched_rows ;;
      let new_rows := new_rows prev_urls enriched_rows in
      write_csv OUT_NEW_CSV new_rows ;;
      print (10 :: u "Snapshot (<= " ++ format_f 0 RADIUS_KM ++ u " km): "
                ++ str_nat (length enriched_rows)) ;;
      print (u "Nieuw sinds vorige run: " ++ str_nat (length new_rows)) ;;
      print (u "- Snapshot: " ++ OUT_SNAPSHOT_CSV) ;;
      print (u "- New:      " ++ OUT_NEW_CSV) ;;
      write_map enriched_rows
  end.

Definition run : M unit := run_sites SITES.

End Pipeline.

(** ** Predicates of the specification *)

Section Specification.
Context {UD : UnicodeData} {LB : Libs} {RM : Remote}.

(** An output record of the enrichment: coordinates present, and a distance
    that is the rounded geodesic distance from the centre, both within the
    radius. *)
Definition within_radius (center_latlon : Q * Q) (r : Row) : Prop :=
  exists la lo d,
    lat r = Some la /\ lon r = Some lo /\ distance_km r = Some d
    /\ (d <= RADIUS_KM)%Q
    /\ d = round1 (geodesic_km center_latlon (la, lo))
    /\ (geodesic_km center_latlon (la, lo) <= RADIUS_KM)%Q.

(** The order of the coordinate lookup, in the words of the specification:
    from a cache [gc] and a world [w], the outcome for a record is a
    coordinate or nothing, with the cache and the world afterwards. *)
Inductive resolution (r : Row) (gc : gmap pystr (Q * Q)) (w : World)
  : option (Q * Q) -> gmap pystr (Q * Q) -> World -> Prop :=
| found_under_url latlon :
    gc !! url r = Some latlon ->
    resolution r gc w (Some latlon) gc w
| found_under_variant pre addr post latlon :
    gc !! url r = None ->
    guess_address_variants r = pre ++ addr :: post ->
    Forall (fun a => gc !! a = None) pre ->
    gc !! addr = Some latlon ->
    resolution r gc w (Some latlon) gc w
| found_by_service pre addr post loc gc' w' :
    gc !! url r = None ->
    Forall (fun a => gc !! a = None) (guess_address_variants r) ->
    guess_address_variants r = pre ++ addr :: post ->
    w_calls w' = w_calls w ++ map (fun a => EvGeocode a None) pre
                           ++ [EvGeocode addr (Some loc)] ->
    resolution r gc w (Some (latitude loc, longitude loc)) gc' w'
| not_found w' :
    gc !! url r = None ->
    Forall (fun a => gc !! a = None) (guess_address_variants r) ->
    w_calls w' = w_calls w ++ map (fun a => EvGeocode a None) (guess_address_variants r) ->
    resolution r gc w None gc w'.

(** What a run of the loop over the variants leaves of the world: only the
    remote and the log of requests move. *)
Definition same_files (w w' : World) : Prop :=
  w_csv w' = w_csv w /\ w_geo_json w' = w_geo_json w /\ w_rev_json w' = w_rev_json w
  /\ w_html w' = w_html w /\ w_out w' = w_out w.

(** The records the anchors of a page yield, in the order of the page. *)
Definition page_candidates (search_url html now : pystr) : list Row :=
  omap (scrape_anchor search_url (lower (urlparse_netloc search_url)) now)
       (soup_anchors html).

(** The dict after the loop [for r in rows: d.setdefault(r.url, r)]. *)
Definition url_dict (rows : list Row) : list (pystr * Row) :=
  fold_left (fun d r => setdefault d (url r) r) rows [].

(** A computation that leaves the map files alone. *)
Definition keeps_html {A} (m : M A) : Prop :=
  forall w, w_html (m w).2 = w_html w.

(** The repetition loop of the matcher for [r{lo,hi}] followed by the
    continuation [k]: [fuel] bounds the rounds left, [n] counts the rounds
    done. *)
Definition rep_loop (k : mstate -> option mstate) (lo : nat) (hi : option nat)
  (r1 : regex) : nat -> nat -> mstate -> option mstate :=
  fix loop (fuel n : nat) (st : mstate) {struct fuel} : option mstate :=
    let stop := if (lo <=? n)%nat then k st else None in
    match fuel with
    | O => stop
    | S fuel' =>
        if more_allowed hi n then
          match rmatch r1 st
                  (fun st' => if (m_pos st' =? m_pos st)%nat then None
                              else loop fuel' (S n) st') with
          | Some x => Some x
          | None => stop
          end
        else stop
    end.

(** The loop for a pattern [c+], [c] a character class, at the end of a
    pattern. *)
Definition plus_loop (p : N -> bool) : nat -> nat -> mstate -> option mstate :=
  rep_loop Some 1%nat None (Cls p).

(** The state of the matcher after the longest run of characters of a
    class. *)
Fixpoint after_run (p : N -> bool) (prev : option N) (rest : pystr) (pos : nat)
  (caps : list (nat * (nat * nat))) : mstate :=
  match rest with
  | c :: rest' =>
      if p c then after_run p (Some c) rest' (S pos) caps
      else {| m_prev := prev; m_rest := rest; m_pos := pos; m_caps := caps |}
  | [] => {| m_prev := prev; m_rest := rest; m_pos := pos; m_caps := caps |}
  end.

(** A text with every run of characters of a class replaced by [repl];
    [in_run] tells that the character before belongs to a run. *)
Fixpoint collapse_runs (p : N -> bool) (repl : pystr) (in_run : bool) (s : pystr) : pystr :=
  match s with
  | [] => []
  | c :: s' =>
      if p c then (if in_run then [] else repl) ++ collapse_runs p repl true s'
      else c :: collapse_runs p repl false s'
  end.

(** A text that is empty or starts with a character outside a class. *)
Definition starts_outside (p : N -> bool) (s : pystr) : Prop :=
  match s with
  | [] => True
  | c :: _ => p c = false
  end.

(** [s.rstrip()] by recursion on the text. *)
Fixpoint rstrip_by (p : N -> bool) (s : pystr) : pystr :=
  match s with
  | [] => []
  | c :: s' =>
      match rstrip_by p s' with
      | [] => if p c then [] else [c]
      | t => c :: t
      end
  end.

(** A text whose whitespace is single spaces; [in_run] tells that the
    character before is whitespace. *)
Fixpoint single_spaced (in_run : bool) (s : pystr) : bool :=
  match s with
  | [] => true
  | c :: s' =>
      if is_space c then (c =? 32) && negb in_run && single_spaced true s'
      else single_spaced false s'
  end.

(** What the listing extractor found of a record: the fields the
    enrichment leaves alone. *)
Definition scraped_fields (r : Row)
  : pystr * pystr * pystr * pystr * pystr * pystr * pystr :=
  (scraped_at r, source r, title r, price_text r, location_text r, since_text r, url r).

(** What holds of a record the extractor yields for a page of [site_host]:
    its lower-cased URL is a detail link of that site and holds none of the
    words that mark navigation links, its title has four characters or
    more, and the fields of the enrichment are unset. *)
Definition scraped_record (site_host : pystr) (r : Row) : Prop :=
  source r = site_host
  /\ (4 <= length (title r))%nat
  /\ is_allowed_detail_url site_host (lower (url r)) = true
  /\ existsb (fun x => contains (lower (url r)) x) SKIP_WORDS = false
  /\ municipality r = [] /\ lat r = None /\ lon r = None /\ distance_km r = None.

(** The in-memory caches hold what the cache files hold, and maybe more. *)
Definition cache_ahead (gc : gmap pystr (Q * Q)) (rc : gmap pystr pystr) (w : World) : Prop :=
  default ∅ (w_geo_json w) ⊆ gc /\ default ∅ (w_rev_json w) ⊆ rc.

(** The cache files of [w'] extend those of [w]. *)
Definition files_grow (w w' : World) : Prop :=
  default ∅ (w_geo_json w) ⊆ default ∅ (w_geo_json w')
  /\ default ∅ (w_rev_json w) ⊆ default ∅ (w_rev_json w').

(** Deduplication by URL in which the first record seen wins: the URLs of
    the output are pairwise different, and the output holds exactly the
    records of the input that no record of the same URL precedes. *)
Definition first_seen_wins (input output : list Row) : Prop :=
  NoDup (map url output)
  /\ forall r, In r output <->
               exists pre post, input = pre ++ r :: post /\ ~ In (url r) (map url pre).

End Specification.

(** ** A concrete world for worked examples

    The statements below are proved for every Unicode database, library
    and remote; this module fixes small ones so that the script can be run
    on examples: the character classes of the Latin blocks, a fixed-point
    number format, a flat-map distance, one search page with three anchors,
    and a geocoder that knows Helmond.  Code points above U+024F other than the
    Kelvin sign count as symbols and case mapping above ASCII is the
    identity; the examples use ASCII text and the euro sign. *)

Module Demo.

#[export] Instance latin1 : UnicodeData := {|
  uni_isspace c := (c =? 133) || (c =? 160);
  uni_isdecimal _ := false;
  uni_isalnum c :=
    (c =? 170) || (c =? 178) || (c =? 179) || (c =? 181) || (c =? 185) || (c =? 186)
    || in_range 188 190 c || in_range 192 214 c || in_range 216 246 c
    || in_range 248 591 c || (c =? 8490);
  uni_lower s := s;
  uni_upper s := s
|}.

Definition str_Z (z : Z) : pystr :=
  u (DecimalString.NilEmpty.string_of_int (Z.to_int z)).

(** [n] digits after the point *)
Definition fixed_point (n : nat) (q : Q) : pystr :=
  let scale := (10 ^ Z.of_nat n)%Z in
  let s := round_half_even (q * inject_Z scale) in
  let frac := str_Z (Z.abs s mod scale) in
  (if (s <? 0)%Z then u "-" else [])
    ++ str_Z (Z.abs s / scale)
    ++ match n with
       | O => []
       | _ => u "." ++ repeat (chr "0") (n - length frac) ++ frac
       end.

Definition flat_distance (a b : Q * Q) : Q :=
  (Qabs (fst a - fst b) * (111 # 1) + Qabs (snd a - snd b) * (70 # 1))%Q.

Definition site : pystr := hd [] SITES.

Definition page : pystr := u "<html>funda</html>".

Definition helmond_card : Card := {|
  card_text := u "Rendierlaan 6 5704 DC Helmond € 450.000 k.k. 3 dagen geleden";
  card_select_one := fun _ => None
|}.

Definition helmond_url : pystr :=
  u "https://www.funda.nl/detail/koop/helmond/huis-rendierlaan-6/43210987/".

Definition anchors : list Anchor :=
  [ {| a_href := helmond_url; a_text := u "Rendierlaan 6 5704 DC Helmond";
       a_card := Some helmond_card |};
    {| a_href := u "/contact"; a_text := u "Contact"; a_card := None |};
    {| a_href := helmond_url; a_text := u "Bekijk de woning"; a_card := Some helmond_card |} ].

#[export] Instance libs : Libs := {|
  urlparse_scheme url := if startswith url (u "https:") then u "https" else u "http";
  urlparse_netloc url :=
    if contains url (u "://www.funda.nl") then u "www.funda.nl" else [];
  urljoin base href := u "https://www.funda.nl" ++ href;
  soup_anchors html := if pystr_eqb html page then anchors else [];
  geodesic_km := flat_distance;
  format_f := fixed_point;
  str_float := fixed_point 6
|}.

Definition helmond : Location := {| latitude := 51480 # 1000; longitude := 5660 # 1000 |}.

(** The remote keeps count of the requests it has answered. *)
#[export] Instance remote_site : Remote := {|
  remote := nat;
  robots_can_fetch _ _ _ n := (Some true, S n);
  http_get url _ n :=
    (if pystr_eqb url site then inl page else inr (u "404 Client Error"), S n);
  nominatim_geocode addr n :=
    (if contains addr (u "Helmond") then Some helmond else None, S n);
  nominatim_reverse _ n :=
    (RevFound (RawDict {[ u "municipality" := u "Helmond" ]}), S n);
  utcnow n := (u "2024-05-01T06:00:00", n)
|}.

Definition world0 : World := {|
  w_remote := O; w_csv := ∅; w_geo_json := None; w_rev_json := None;
  w_html := ∅; w_out := []; w_calls := []
|}.

Definition row0 : Row := {|
  scraped_at := u "2024-05-01T06:00:00"; source := u "www.funda.nl";
  title := u "Rendierlaan 6 5704 DC Helmond"; price_text := u "€ 450.000 k.k.";
  location_text := u "5704 DC Helmond € 450.000 k.k. 3 dagen geleden";
  since_text := u "3 dagen geleden"; url := helmond_url;
  municipality := []; lat := None; lon := None; distance_km := None
|}.

(** The same listing under another anchor text. *)
Definition row0_again : Row := {|
  scraped_at := u "2024-05-01T06:00:00"; source := u "www.funda.nl";
  title := u "Bekijk de woning"; price_text := u "€ 450.000 k.k.";
  location_text := u "5704 DC Helmond € 450.000 k.k. 3 dagen geleden";
  since_text := u "3 dagen geleden"; url := helmond_url;
  municipality := []; lat := None; lon := None; distance_km := None
|}.

(** A search page the remote does not serve. *)
Definition other_site : pystr := u "https://www.funda.nl/zoeken/huur".

(** A listing the geocoder knows nothing about. *)
Definition row_nowhere : Row := {|
  scraped_at := u "2024-05-01T06:00:00"; source := u "www.funda.nl";
  title := u "Vrijstaande bungalow"; price_text := []; location_text := [];
  since_text := []; url := u "https://www.funda.nl/detail/koop/weert/huis-heide-2/43210000/";
  municipality := []; lat := None; lon := None; distance_km := None
|}.

(** A search page of a site the script has no detail pattern for. *)
Definition unknown_site : pystr := u "https://www.jaap.nl/koophuizen/limburg".

(** A world whose previous snapshot has no column "url". *)
Definition world_without_url_column : World := {|
  w_remote := O;
  w_csv := {[ OUT_SNAPSHOT_CSV := [[u "title"; u "link"];
                                   [u "Rendierlaan 6"; helmond_url]] ]};
  w_geo_json := None; w_rev_json := None; w_html := ∅; w_out := []; w_calls := []
|}.

(** The record of the listing once enriched. *)
Definition row0_enriched : Row :=
  replace_geo row0 (u "Helmond") (51480 # 1000) (5660 # 1000) (803 # 10).

End Demo.

(** * Properties *)

(** ** Address parsing *)

Section AddressFacts.
Context {UD : UnicodeData}.

Lemma startswith_app (p s : pystr) : startswith (p ++ s) p = true.
Proof.
  induction p as [|c p IH]; simpl; [done|].
  by rewrite N.eqb_refl, IH.
Qed.

Lemma truthy_false (s : pystr) : truthy s = false <-> s = [].
Proof. destruct s; simpl; split; congruence. Qed.

(** The first piece of a split is the text before the first occurrence of
    the separator. *)
Lemma str_split_aux_first (sep before after piece : pystr) :
  sep <> [] ->
  (forall i, (i < length before)%nat ->
             startswith (skipn i (before ++ sep ++ after)) sep = false) ->
  hd [] (str_split_aux sep (before ++ sep ++ after) piece O) = piece ++ before.
Proof.
  intros Hsep. revert piece.
  induction before as [|c before IH]; intros piece Hfirst.
  - simpl app at 1. rewrite app_nil_r.
    destruct sep as [|c sep]; [done|].
    change (str_split_aux (c :: sep) ((c :: sep) ++ after) piece O)
      with (if startswith ((c :: sep) ++ after) (c :: sep)
            then piece :: str_split_aux (c :: sep) (sep ++ after) []
                            (length (c :: sep) - 1)
            else str_split_aux (c :: sep) (sep ++ after) (piece ++ [c]) O).
    by rewrite startswith_app.
  - pose proof (Hfirst O ltac:(simpl; lia)) as H0. simpl skipn in H0.
    change ((c :: before) ++ sep ++ after) with (c :: (before ++ sep ++ after)) in *.
    change (str_split_aux sep (c :: (before ++ sep ++ after)) piece O)
      with (if startswith (c :: (before ++ sep ++ after)) sep
            then piece :: str_split_aux sep (before ++ sep ++ after) [] (length sep - 1)
            else str_split_aux sep (before ++ sep ++ after) (piece ++ [c]) O).
    rewrite H0, IH.
    + by rewrite <- app_assoc.
    + intros i Hi. apply (Hfirst (S i)). simpl. lia.
Qed.

(** C3: for title "Rendierlaan 6 5704 DC Helmond" and location text
    "5704 DC Helmond € 450.000 k.k.", whatever the other fields of the
    record are, the first address variant is
    "Rendierlaan 6, 5704 DC Helmond, Nederland". *)
Theorem rendierlaan_first_variant
  (scraped_at source price_text since_text url municipality : pystr)
  (lat lon distance_km : option Q) :
  head (guess_address_variants
          {| scraped_at := scraped_at; source := source;
             title := u "Rendierlaan 6 5704 DC Helmond";
             price_text := price_text;
             location_text := u "5704 DC Helmond € 450.000 k.k.";
             since_text := since_text; url := url; municipality := municipality;
             lat := lat; lon := lon; distance_km := distance_km |})
  = Some (u "Rendierlaan 6, 5704 DC Helmond, Nederland").
Proof. vm_compute. reflexivity. Qed.

(** C7: on the text "5704 dc Helmond" the postcode extraction in force, the
    one the address variant generator calls, returns "5704 dc": the letters
    are left as written, while the definition it replaces returns
    "5704 DC".  The lower-case letters reach the variants generated for a
    record with that location text. *)
Theorem extract_postcode_keeps_letter_case :
  extract_postcode (u "5704 dc Helmond") = u "5704 dc"
  /\ extract_postcode_shadowed (u "5704 dc Helmond") = u "5704 DC"
  /\ extract_postcode (u "5704 dc Helmond") <> extract_postcode_shadowed (u "5704 dc Helmond")
  /\ head (guess_address_variants
             {| scraped_at := []; source := u "www.funda.nl";
                title := u "Rendierlaan 6 5704 dc Helmond"; price_text := [];
                location_text := u "5704 dc Helmond"; since_text := [];
                url := Demo.helmond_url; municipality := [];
                lat := None; lon := None; distance_km := None |})
     = Some (u "Rendierlaan 6, 5704 dc helmond, Nederland").
Proof. vm_compute. repeat split; congruence. Qed.

(** C8, as amended: a title in which the pattern finds no postal code has
    the empty street; a title whose postal code, as [extract_postcode]
    returns it (four digits, one space, the two letters), occurs in the
    title has as street the whitespace-normalised text before the first
    occurrence of that string. *)
Theorem extract_street_before_postcode :
  (forall title : pystr,
      re_search POSTCODE_RE title = None -> extract_street_from_title title = [])
  /\ (forall title before after : pystr,
        extract_postcode title <> [] ->
        title = before ++ extract_postcode title ++ after ->
        (forall i, (i < length before)%nat ->
                   startswith (skipn i title) (extract_postcode title) = false) ->
        extract_street_from_title title = norm before).
Proof.
  split.
  - intros title Hnone. unfold extract_street_from_title, extract_postcode.
    by rewrite Hnone.
  - intros title before after Hpc Htitle Hfirst.
    unfold extract_street_from_title.
    destruct (truthy (extract_postcode title)) eqn:Ht.
    + simpl. f_equal. unfold str_split.
      destruct (extract_postcode title) as [|c pc] eqn:Epc; [done|].
      rewrite Htitle at 1.
      rewrite str_split_aux_first; [done..|].
      by rewrite <- Htitle.
    + by apply truthy_false in Ht.
Qed.

End AddressFacts.

Section AddressExamples.
#[local] Existing Instance Demo.latin1.

Lemma extract_street_before_postcode_witness :
  extract_street_from_title (u "Vrijstaande bungalow in Helmond") = []
  /\ extract_street_from_title (u "Rendierlaan 6 5704 DC Helmond") = norm (u "Rendierlaan 6 ").
Proof.
  split.
  - apply (proj1 extract_street_before_postcode). vm_compute. reflexivity.
  - apply (proj2 extract_street_before_postcode
             (u "Rendierlaan 6 5704 DC Helmond") (u "Rendierlaan 6 ") (u " Helmond")).
    + vm_compute. congruence.
    + vm_compute. reflexivity.
    + intros i Hi.
      do 14 (destruct i as [|i]; [vm_compute; reflexivity|]).
      exfalso. vm_compute in Hi. lia.
Defined.

(** C8, as stated, fails.  In "Rendierlaan 6 5704DC Helmond" the postal code
    starts at index 14, after "Rendierlaan 6 ", and the street returned is
    the whole title; in "Rendierlaan  6 5704 DC Helmond" the text before the
    postal code is "Rendierlaan  6 " and the street returned is
    "Rendierlaan 6". *)
Lemma extract_street_counterexample :
  (mt_start <$> re_search POSTCODE_RE (u "Rendierlaan 6 5704DC Helmond") = Some 14%nat
   /\ firstn 14 (u "Rendierlaan 6 5704DC Helmond") = u "Rendierlaan 6 "
   /\ extract_street_from_title (u "Rendierlaan 6 5704DC Helmond")
      = u "Rendierlaan 6 5704DC Helmond")
  /\ (mt_start <$> re_search POSTCODE_RE (u "Rendierlaan  6 5704 DC Helmond") = Some 15%nat
      /\ firstn 15 (u "Rendierlaan  6 5704 DC Helmond") = u "Rendierlaan  6 "
      /\ extract_street_from_title (u "Rendierlaan  6 5704 DC Helmond") = u "Rendierlaan 6"
      /\ u "Rendierlaan 6" <> u "Rendierlaan  6 ").
Proof. vm_compute. repeat split; congruence. Qed.

End AddressExamples.

(** ** Enrichment *)

Section EnrichmentFacts.
Context {UD : UnicodeData} {LB : Libs} {RM : Remote}.

Lemma round_half_even_le (q : Q) (z : Z) :
  (q <= inject_Z z)%Q -> (round_half_even q <= z)%Z.
Proof.
  intros Hq. unfold round_half_even.
  pose proof (Qfloor_le q) as Hfl.
  assert (Hfz : (Qfloor q <= z)%Z).
  { rewrite Zle_Qle. lra. }
  destruct (Z.eq_dec (Qfloor q) z) as [Heq|Hne].
  - destruct (Qcompare_spec (q - inject_Z (Qfloor q)) (1 # 2)) as [He|Hl|Hg].
    + rewrite Heq in He. lra.
    + lia.
    + rewrite Heq in Hg. lra.
  - destruct (_ ?= _)%Q; [destruct (Z.even _)|..]; lia.
Qed.

Lemma round1_le_radius (x : Q) :
  (x <= RADIUS_KM)%Q -> (round1 x <= RADIUS_KM)%Q.
Proof.
  unfold RADIUS_KM, round1. intros Hx.
  assert (H : (round_half_even (x * (10 # 1)) <= 1000)%Z).
  { apply round_half_even_le. unfold inject_Z. lra. }
  unfold Qle. simpl. lia.
Qed.

Lemma enrich_row_within center r gc rc w r' :
  (enrich_row center r gc rc w).1.1.1 = Some r' -> within_radius center r'.
Proof.
  unfold enrich_row, mbind, M_bind, mret, M_ret.
  destruct (resolve_latlon r gc w) as [[[[la lo]|] gc1] w1]; simpl; [|done].
  destruct (Qle_bool (geodesic_km center (la, lo)) RADIUS_KM) eqn:Hle; simpl; [|done].
  destruct (resolve_municipality la lo rc w1) as [[mun rc1] w2]; simpl.
  intros [= <-]. apply Qle_bool_iff in Hle.
  exists la, lo, (round1 (geodesic_km center (la, lo))); simpl.
  repeat split; [|done]. by apply round1_le_radius.
Qed.

Lemma enrich_loop_within center rows :
  forall gc rc enriched w,
    Forall (within_radius center) enriched ->
    Forall (within_radius center) (enrich_loop center rows gc rc enriched w).1.
Proof.
  induction rows as [|r rows IH]; intros gc rc enriched w Henr; simpl; [done|].
  unfold mbind, M_bind.
  pose proof (enrich_row_within center r gc rc w) as Hrow.
  destruct (enrich_row center r gc rc w) as [[[[r'|] gc1] rc1] w1]; simpl in *.
  - apply IH. apply Forall_app; split; [done|]. constructor; [|done]. by apply Hrow.
  - by apply IH.
Qed.

(** C1: every record of the list [geocode_and_enrich_rows] returns has its
    coordinates, and a distance that is at most the radius: the distance is
    the geodesic distance from the centre rounded to one decimal, and the
    records whose geodesic distance exceeds the radius are not enriched. *)
Theorem enriched_rows_within_radius (rows : list Row) (w : World) :
  Forall (within_radius (get_center_latlon w).1) (geocode_and_enrich_rows rows w).1.
Proof.
  unfold geocode_and_enrich_rows, load_geo_cache, load_rev_cache, mbind, M_bind.
  destruct (get_center_latlon w) as [center w1]; simpl.
  pose proof (enrich_loop_within center rows (default ∅ (w_geo_json w))
                (default ∅ (w_rev_json w)) [] w1 (Forall_nil_2 _)) as H.
  destruct (enrich_loop _ _ _ _ _ _) as [enriched w2]; simpl in *.
  done.
Qed.

End EnrichmentFacts.

(** ** Coordinate lookup *)

Section ResolutionFacts.
Context {UD : UnicodeData} {LB : Libs} {RM : Remote}.

Lemma cached_variant_some (gc : gmap pystr (Q * Q)) (addrs : list pystr) latlon :
  cached_variant gc addrs = Some latlon ->
  exists pre addr post,
    addrs = pre ++ addr :: post
    /\ Forall (fun a => gc !! a = None) pre /\ gc !! addr = Some latlon.
Proof.
  induction addrs as [|a addrs IH]; simpl; [done|].
  destruct (gc !! a) as [ll|] eqn:Ha.
  - intros [= ->]. by exists [], a, addrs.
  - intros H. destruct (IH H) as (pre & addr & post & -> & Hpre & Haddr).
    exists (a :: pre), addr, post. split; [done|]. split; [|done].
    by constructor.
Qed.

Lemma cached_variant_none (gc : gmap pystr (Q * Q)) (addrs : list pystr) :
  cached_variant gc addrs = None -> Forall (fun a => gc !! a = None) addrs.
Proof.
  induction addrs as [|a addrs IH]; simpl; [done|].
  destruct (gc !! a) as [ll|] eqn:Ha; [done|].
  intros H. constructor; [done|]. by apply IH.
Qed.

Lemma geocode_variants_found (addrs : list pystr) :
  forall w la lo addr w',
    geocode_variants addrs w = (Some (la, lo, addr), w') ->
    exists pre post loc,
      addrs = pre ++ addr :: post
      /\ la = latitude loc /\ lo = longitude loc
      /\ w_calls w' = w_calls w ++ map (fun a => EvGeocode a None) pre
                               ++ [EvGeocode addr (Some loc)]
      /\ same_files w w'.
Proof.
  induction addrs as [|a addrs IH]; intros w la lo addr w'; simpl; [done|].
  unfold mbind, M_bind, mret, M_ret, geocode, with_remote.
  destruct (nominatim_geocode a (w_remote w)) as [[loc|] rm]; simpl.
  - intros [= <- <- <- <-]. exists [], addrs, loc. by repeat split.
  - intros H. apply IH in H as (pre & post & loc & -> & -> & -> & Hcalls & Hsame).
    exists (a :: pre), post, loc. simpl in *. repeat split; try apply Hsame.
    by rewrite Hcalls, <- !app_assoc.
Qed.

Lemma geocode_variants_not_found (addrs : list pystr) :
  forall w w',
    geocode_variants addrs w = (None, w') ->
    w_calls w' = w_calls w ++ map (fun a => EvGeocode a None) addrs
    /\ same_files w w'.
Proof.
  induction addrs as [|a addrs IH]; intros w w'; simpl.
  - intros [= <-]. by rewrite app_nil_r.
  - unfold mbind, M_bind, mret, M_ret, geocode, with_remote.
    destruct (nominatim_geocode a (w_remote w)) as [[loc|] rm]; simpl; [done|].
    intros H. apply IH in H as [Hcalls Hsame]. simpl in *. split; [|apply Hsame].
    by rewrite Hcalls, <- app_assoc.
Qed.

(** C2: the coordinate of a record is looked up in this order: the cache
    under the URL of the record; then the cache under each address variant
    in the order they are generated; then the service, asked for each
    variant in that order until it answers, the first answer being taken.
    When no variant resolves the record is dropped: the loop goes on with
    the remaining records and the enriched list as it was. *)
Theorem resolve_latlon_order (r : Row) (gc : gmap pystr (Q * Q)) (w : World)
  (center_latlon : Q * Q) (rev_cache : gmap pystr pystr) :
  resolution r gc w (resolve_latlon r gc w).1.1 (resolve_latlon r gc w).1.2
             (resolve_latlon r gc w).2
  /\ match (resolve_latlon r gc w).1.1 with
     | Some _ => True
     | None =>
         forall rest enriched,
           enrich_loop center_latlon (r :: rest) gc rev_cache enriched w
           = enrich_loop center_latlon rest gc rev_cache enriched (resolve_latlon r gc w).2
     end.
Proof.
  assert (Hloop : forall rest enriched w',
             resolve_latlon r gc w = (None, gc, w') ->
             enrich_loop center_latlon (r :: rest) gc rev_cache enriched w
             = enrich_loop center_latlon rest gc rev_cache enriched w').
  { intros rest enriched w' H. simpl.
    unfold enrich_row, mbind, M_bind, mret, M_ret. by rewrite H. }
  revert Hloop. unfold resolve_latlon, cached_latlon.
  destruct (gc !! url r) as [ll|] eqn:Hurl.
  { intros _. simpl. split; [|done]. by constructor. }
  destruct (cached_variant gc (guess_address_variants r)) as [ll|] eqn:Hvar.
  { intros _. simpl. split; [|done].
    apply cached_variant_some in Hvar as (pre & addr & post & Hv & Hpre & Haddr).
    by eapply found_under_variant. }
  apply cached_variant_none in Hvar.
  unfold mbind, M_bind, mret, M_ret.
  destruct (geocode_variants (guess_address_variants r) w)
    as [[[[la lo] used]|] w1] eqn:Hgeo; simpl.
  - intros _. split; [|done].
    apply geocode_variants_found in Hgeo
      as (pre & post & loc & Hv & -> & -> & Hcalls & _).
    by eapply found_by_service.
  - intros Hloop. split; [|by intros; apply Hloop].
    apply geocode_variants_not_found in Hgeo as [Hcalls _].
    by apply not_found.
Qed.

(** C4: when the coordinate of a record is not cached and the service
    answers for the variant [used], the coordinate is stored in the cache
    under the URL of the record and under [used], and the cache file holds
    that cache at once.  Resolving a record of the same URL next, with that
    cache or with the cache loaded from the file in a later state [w2],
    returns the coordinate and leaves the world as it is: nothing is sent to
    the service. *)
Theorem fresh_geocode_is_cached (r r2 : Row) (gc : gmap pystr (Q * Q))
  (w w1 w2 : World) (la lo : Q) (used : pystr) :
  cached_latlon gc r = None ->
  geocode_variants (guess_address_variants r) w = (Some (la, lo, used), w1) ->
  url r2 = url r ->
  w_geo_json w2 = w_geo_json (resolve_latlon r gc w).2 ->
  let gc' := (resolve_latlon r gc w).1.2 in
  let w' := (resolve_latlon r gc w).2 in
  (resolve_latlon r gc w).1.1 = Some (la, lo)
  /\ gc' !! url r = Some (la, lo)
  /\ gc' !! used = Some (la, lo)
  /\ w_geo_json w' = Some gc'
  /\ resolve_latlon r2 gc' w' = (Some (la, lo), gc', w')
  /\ resolve_latlon r2 (load_geo_cache w2).1 w2 = (Some (la, lo), gc', w2).
Proof.
  intros Hmiss Hgeo Hurl.
  set (gc1 := <[used:=(la, lo)]> (<[url r:=(la, lo)]> gc)).
  assert (Hres : resolve_latlon r gc w = (Some (la, lo), gc1, (save_geo_cache gc1 w1).2)).
  { unfold resolve_latlon. rewrite Hmiss.
    unfold mbind, M_bind, mret, M_ret. by rewrite Hgeo. }
  rewrite Hres. simpl. intros Hfile.
  assert (Hlook : gc1 !! url r = Some (la, lo)).
  { unfold gc1. rewrite lookup_insert. case_decide; [done|]. by rewrite lookup_insert_eq. }
  assert (Hhit : forall w3, resolve_latlon r2 gc1 w3 = (Some (la, lo), gc1, w3)).
  { intros w3. unfold resolve_latlon, cached_latlon. by rewrite Hurl, Hlook. }
  repeat split; [done|by apply lookup_insert_eq|apply Hhit|].
  unfold load_geo_cache. simpl. rewrite Hfile. simpl. apply Hhit.
Qed.

End ResolutionFacts.


Section ResolutionExamples.
#[local] Existing Instances Demo.latin1 Demo.libs Demo.remote_site.

Lemma fresh_geocode_is_cached_witness :
  let first := resolve_latlon Demo.row0 ∅ Demo.world0 in
  first.1.1 = Some (51480 # 1000, 5660 # 1000)
  /\ resolve_latlon Demo.row0_again first.1.2 first.2
     = (Some (51480 # 1000, 5660 # 1000), first.1.2, first.2).
Proof.
  intros first.
  assert (Hmiss : cached_latlon ∅ Demo.row0 = None) by (vm_compute; reflexivity).
  assert (Hgeo : geocode_variants (guess_address_variants Demo.row0) Demo.world0
                 = (Some (51480 # 1000, 5660 # 1000,
                          u "Rendierlaan 6, 5704 DC Helmond, Nederland"),
                    (geocode_variants (guess_address_variants Demo.row0) Demo.world0).2))
    by (vm_compute; reflexivity).
  assert (Hurl : url Demo.row0_again = url Demo.row0) by (vm_compute; reflexivity).
  destruct (fresh_geocode_is_cached Demo.row0 Demo.row0_again ∅ Demo.world0
              (geocode_variants (guess_address_variants Demo.row0) Demo.world0).2
              (resolve_latlon Demo.row0 ∅ Demo.world0).2 (51480 # 1000) (5660 # 1000)
              (u "Rendierlaan 6, 5704 DC Helmond, Nederland")
              Hmiss Hgeo Hurl eq_refl) as (H1 & _ & _ & _ & H2 & _).
  split; [exact H1 | exact H2].
Defined.

(** The demo listing, not cached: the service is asked for the first variant
    and answers; the record comes out enriched, 80.3 km from the centre. *)
Example enrich_the_demo_listing :
  (geocode_and_enrich_rows [Demo.row0] Demo.world0).1 = [Demo.row0_enriched]
  /\ w_calls (geocode_and_enrich_rows [Demo.row0] Demo.world0).2
     = [EvGeocode CENTER_NAME None;
        EvGeocode (u "Rendierlaan 6, 5704 DC Helmond, Nederland") (Some Demo.helmond);
        EvReverse (51480 # 1000, 5660 # 1000)%Q].
Proof. vm_compute. split; reflexivity. Qed.

End ResolutionExamples.

(** ** Deduplication *)

Section DedupFacts.
Context {UD : UnicodeData} {LB : Libs} {RM : Remote}.

Lemma classic_in_pystr (k : pystr) (l : list pystr) : In k l \/ ~ In k l.
Proof. destruct (decide (k ∈ l)) as [H|H]; rewrite list_elem_of_In in H; tauto. Qed.

Lemma assoc_get_none {V} (k : pystr) (d : list (pystr * V)) :
  assoc_get k d = None <-> ~ In k (map fst d).
Proof.
  induction d as [|[k' v] d IH]; simpl; [naive_solver|].
  unfold pystr_eqb. case_bool_decide as Hk.
  - split; [done|]. intros H. exfalso. apply H. by left.
  - rewrite IH. split; [|tauto]. intros H [Heq|Hin]; [congruence|tauto].
Qed.

Lemma snoc_split {A} (l pre post : list A) (x r : A) :
  l ++ [x] = pre ++ r :: post ->
  (post = [] /\ pre = l /\ r = x)
  \/ exists post', post = post' ++ [x] /\ l = pre ++ r :: post'.
Proof.
  destruct post as [|y post _] using rev_ind; intros H.
  - left. apply app_inj_tail in H as [-> ->]. done.
  - change (pre ++ r :: post ++ [y]) with (pre ++ (r :: post) ++ [y]) in H.
    rewrite app_assoc in H. apply app_inj_tail in H as [-> ->].
    right. by exists post.
Qed.

Lemma url_dict_spec (rows : list Row) :
  Forall (fun kv => kv.1 = url kv.2) (url_dict rows)
  /\ NoDup (map fst (url_dict rows))
  /\ (forall k, In k (map fst (url_dict rows)) <-> In k (map url rows))
  /\ (forall r, In r (map snd (url_dict rows)) <->
                exists pre post, rows = pre ++ r :: post /\ ~ In (url r) (map url pre)).
Proof.
  induction rows as [|x rows IH] using rev_ind.
  - repeat split; simpl; try done; try constructor.
    intros (pre & post & H & _). by destruct pre.
  - destruct IH as (Hkeys & Hnodup & Hdom & Hfirst).
    unfold url_dict in *. rewrite fold_left_app. simpl.
    set (d := fold_left (fun d r => setdefault d (url r) r) rows []) in *.
    unfold setdefault.
    destruct (assoc_get (url x) d) as [v|] eqn:Hget.
    + assert (Hin : In (url x) (map url rows)).
      { apply Hdom. destruct (classic_in_pystr (url x) (map fst d)) as [H|H]; [done|].
        apply assoc_get_none in H. congruence. }
      repeat split; try done.
      * intros Hk. rewrite map_app, in_app_iff. left. by apply Hdom.
      * rewrite map_app, in_app_iff. simpl. intros [Hk|[<-|[]]]; by apply Hdom.
      * intros Hr. apply Hfirst in Hr as (pre & post & -> & Hpre).
        exists pre, (post ++ [x]). split; [|done]. by rewrite <- app_assoc.
      * intros (pre & post & Hsplit & Hpre).
        apply snoc_split in Hsplit as [(-> & -> & ->)|(post' & -> & ->)]; [done|].
        apply Hfirst. by exists pre, post'.
    + apply assoc_get_none in Hget.
      repeat split.
      * apply Forall_app. split; [done|]. by constructor.
      * rewrite map_app. simpl. apply NoDup_app. repeat split; [done| |].
        -- intros k Hk. rewrite list_elem_of_In in Hk.
           rewrite list_elem_of_In. simpl. intros [<-|[]]. done.
        -- apply NoDup_singleton.
      * rewrite !map_app, !in_app_iff. simpl. rewrite Hdom. done.
      * rewrite !map_app, !in_app_iff. simpl. rewrite <- Hdom. done.
      * rewrite map_app, in_app_iff. simpl. intros [Hr|[<-|[]]].
        -- apply Hfirst in Hr as (pre & post & -> & Hpre).
           exists pre, (post ++ [x]). split; [|done]. by rewrite <- app_assoc.
        -- exists rows, []. split; [done|]. by rewrite <- Hdom.
      * intros (pre & post & Hsplit & Hpre). rewrite map_app, in_app_iff. simpl.
        apply snoc_split in Hsplit as [(-> & -> & ->)|(post' & -> & ->)]; [by right; left|].
        left. apply Hfirst. by exists pre, post'.
Qed.

Lemma url_dict_first_seen_wins (rows : list Row) :
  first_seen_wins rows (dict_values (url_dict rows)).
Proof.
  destruct (url_dict_spec rows) as (Hkeys & Hnodup & _ & Hfirst).
  split; [|exact Hfirst].
  unfold dict_values. rewrite map_map.
  replace (map (fun kv => url kv.2) (url_dict rows)) with (map fst (url_dict rows)); [done|].
  clear Hnodup Hfirst.
  induction Hkeys as [|kv d Hkv _ IH]; simpl; [done|]. by rewrite Hkv, IH.
Qed.

(** C6, as amended: records of the same URL collapse to one, and the first
    one seen wins, both among the records extracted from a page and among
    the records of all pages. *)
Theorem first_record_of_a_url_wins (search_url html : pystr) (w : World)
  (all_rows : list Row) :
  first_seen_wins (page_candidates search_url html (utcnow (w_remote w)).1)
                  (scrape_search_page search_url html w).1
  /\ first_seen_wins all_rows (dedup_rows all_rows).
Proof.
  split; [|apply url_dict_first_seen_wins].
  unfold scrape_search_page, mbind, M_bind, mret, M_ret, with_remote, page_candidates.
  destruct (utcnow (w_remote w)) as [now rm]; simpl.
  apply url_dict_first_seen_wins.
Qed.

End DedupFacts.

Section DedupExamples.
#[local] Existing Instances Demo.latin1 Demo.libs Demo.remote_site.

(** C6, as stated, fails for the extraction.  On the demo page the first and
    the third anchor lead to the same URL and both yield a record; the list
    [scrape_search_page] returns holds the record of the first anchor, not
    the record of the last one. *)
Lemma extraction_keeps_the_first_record :
  page_candidates Demo.site Demo.page (u "2024-05-01T06:00:00")
  = [Demo.row0; Demo.row0_again]
  /\ url Demo.row0 = url Demo.row0_again
  /\ (scrape_search_page Demo.site Demo.page Demo.world0).1 = [Demo.row0]
  /\ ~ In Demo.row0_again (scrape_search_page Demo.site Demo.page Demo.world0).1.
Proof.
  assert (Hout : (scrape_search_page Demo.site Demo.page Demo.world0).1 = [Demo.row0])
    by (vm_compute; reflexivity).
  split; [vm_compute; reflexivity|].
  split; [vm_compute; reflexivity|].
  split; [exact Hout|].
  rewrite Hout. intros [H|[]].
  apply (f_equal title) in H. vm_compute in H. discriminate H.
Qed.

End DedupExamples.

(** ** Snapshot, diff and map *)

Section OutputFacts.
Context {UD : UnicodeData} {LB : Libs} {RM : Remote}.
#[local] Existing Instances M_ret M_bind.

Lemma keeps_html_ret {A} (a : A) : keeps_html (mret a).
Proof. done. Qed.

Lemma keeps_html_bind {A B} (m : M A) (f : A -> M B) :
  keeps_html m -> (forall a, keeps_html (f a)) -> keeps_html (m ≫= f).
Proof.
  intros Hm Hf w. unfold mbind, M_bind.
  specialize (Hm w). destruct (m w) as [a w1]. simpl in Hm.
  by rewrite Hf.
Qed.

Lemma keeps_html_with_remote {A} (f : remote -> A * remote) (log : A -> list Event) :
  keeps_html (with_remote f log).
Proof. intros w. unfold with_remote. by destruct (f (w_remote w)). Qed.

Lemma keeps_html_print (line : pystr) : keeps_html (print line).
Proof. done. Qed.

Lemma keeps_html_save_geo_cache cache : keeps_html (save_geo_cache cache).
Proof. done. Qed.

Lemma keeps_html_save_rev_cache cache : keeps_html (save_rev_cache cache).
Proof. done. Qed.

Lemma keeps_html_load_geo_cache : keeps_html load_geo_cache.
Proof. done. Qed.

Lemma keeps_html_load_rev_cache : keeps_html load_rev_cache.
Proof. done. Qed.

Create HintDb frame.
#[local] Hint Resolve keeps_html_ret keeps_html_with_remote keeps_html_print
  keeps_html_save_geo_cache keeps_html_save_rev_cache keeps_html_load_geo_cache
  keeps_html_load_rev_cache : frame.

Ltac frame :=
  repeat match goal with
         | |- keeps_html (mbind _ _) => apply keeps_html_bind; [|intros ?]
         | |- keeps_html (let _ := _ in _) => cbv zeta
         | |- keeps_html (match ?x with _ => _ end) => destruct x
         | |- keeps_html _ => solve [auto with frame]
         end.

Lemma keeps_html_geocode addr : keeps_html (geocode addr).
Proof. unfold geocode. frame. Qed.

Lemma keeps_html_reverse latlon : keeps_html (reverse latlon).
Proof. unfold reverse. frame. Qed.

#[local] Hint Resolve keeps_html_geocode keeps_html_reverse : frame.

Lemma keeps_html_get_center_latlon : keeps_html get_center_latlon.
Proof. unfold get_center_latlon. frame. Qed.

Lemma keeps_html_geocode_variants addrs : keeps_html (geocode_variants addrs).
Proof. induction addrs; simpl; frame. Qed.

#[local] Hint Resolve keeps_html_get_center_latlon keeps_html_geocode_variants : frame.

Lemma keeps_html_resolve_latlon r gc : keeps_html (resolve_latlon r gc).
Proof. unfold resolve_latlon. frame. Qed.

Lemma keeps_html_resolve_municipality la lo rc : keeps_html (resolve_municipality la lo rc).
Proof. unfold resolve_municipality. frame. Qed.

#[local] Hint Resolve keeps_html_resolve_latlon keeps_html_resolve_municipality : frame.

Lemma keeps_html_enrich_row c r gc rc : keeps_html (enrich_row c r gc rc).
Proof. unfold enrich_row. frame. Qed.

#[local] Hint Resolve keeps_html_enrich_row : frame.

Lemma keeps_html_enrich_loop c rows :
  forall gc rc enriched, keeps_html (enrich_loop c rows gc rc enriched).
Proof. induction rows; intros; simpl; frame. Qed.

#[local] Hint Resolve keeps_html_enrich_loop : frame.

Lemma keeps_html_geocode_and_enrich_rows rows : keeps_html (geocode_and_enrich_rows rows).
Proof. unfold geocode_and_enrich_rows. frame. Qed.

Lemma keeps_html_scrape_search_page search_url html :
  keeps_html (scrape_search_page search_url html).
Proof. unfold scrape_search_page. frame. Qed.

Lemma keeps_html_robots_allows url : keeps_html (robots_allows url).
Proof. unfold robots_allows. frame. Qed.

Lemma keeps_html_fetch url referer : keeps_html (fetch url referer).
Proof. unfold fetch. frame. Qed.

#[local] Hint Resolve keeps_html_geocode_and_enrich_rows keeps_html_scrape_search_page
  keeps_html_robots_allows keeps_html_fetch : frame.

Lemma keeps_html_is_bungalow_detail url site_host :
  keeps_html (is_bungalow_detail url site_host).
Proof. unfold is_bungalow_detail. frame. Qed.

#[local] Hint Resolve keeps_html_is_bungalow_detail : frame.

Lemma keeps_html_scrape_sites sites :
  forall all_rows, keeps_html (scrape_sites sites all_rows).
Proof. induction sites; intros; simpl; frame. Qed.

Lemma keeps_html_filter_bungalows detail_rows :
  forall filtered_rows, keeps_html (filter_bungalows detail_rows filtered_rows).
Proof. induction detail_rows; intros; simpl; frame. Qed.

#[local] Hint Resolve keeps_html_scrape_sites keeps_html_filter_bungalows : frame.

Lemma keeps_html_gather_enriched sites : keeps_html (gather_enriched sites).
Proof. unfold gather_enriched. frame. Qed.

Lemma load_prev_urls_world (path : pystr) (w : World) :
  (load_prev_urls path w).2 = w.
Proof. unfold load_prev_urls. by destruct (w_csv w !! path). Qed.

Lemma with_coords_cons (r : Row) (rows : list Row) :
  with_coords (r :: rows)
  = match lat r, lon r with
    | Some la, Some lo => (r, (la, lo)) :: with_coords rows
    | _, _ => with_coords rows
    end.
Proof. unfold with_coords. simpl. by destruct (lat r), (lon r). Qed.

Lemma with_coords_nil (rows : list Row) :
  Forall (fun r => lat r = None \/ lon r = None) rows -> with_coords rows = [].
Proof.
  induction 1 as [|r rows Hr _ IH]; [done|].
  rewrite with_coords_cons, IH.
  destruct Hr as [-> | ->]; [done|]. by destruct (lat r).
Qed.

Lemma write_map_csv (rows : list Row) (w : World) :
  w_csv (write_map rows w).2 = w_csv w.
Proof. unfold write_map. by destruct (with_coords rows). Qed.

Lemma write_map_nil (rows : list Row) (w : World) :
  with_coords rows = [] ->
  write_map rows w = print (u "[WARN] Geen punten om te plotten.") w.
Proof. unfold write_map. by intros ->. Qed.

Lemma snapshot_is_not_new : OUT_SNAPSHOT_CSV <> OUT_NEW_CSV.
Proof. vm_compute. discriminate. Qed.

(** The files a run leaves: both CSV files are written from the enriched
    records, and without a record to plot the map files stay as they were. *)
Lemma run_sites_outputs (sites : list pystr) (w : World) :
  sites <> [] ->
  let prev_urls := (load_prev_urls OUT_SNAPSHOT_CSV w).1 in
  let enriched := (gather_enriched sites w).1 in
  w_csv (run_sites sites w).2
  = <[OUT_NEW_CSV := COLUMNS :: map csv_record (new_rows prev_urls enriched)]>
      (<[OUT_SNAPSHOT_CSV := COLUMNS :: map csv_record enriched]>
         (w_csv (gather_enriched sites w).2))
  /\ (with_coords enriched = [] -> w_html (run_sites sites w).2 = w_html w).
Proof.
  intros Hsites. destruct sites as [|site sites]; [done|].
  unfold run_sites. set (ss := site :: sites). clearbody ss.
  unfold mbind, M_bind.
  pose proof (load_prev_urls_world OUT_SNAPSHOT_CSV w) as Hw.
  destruct (load_prev_urls OUT_SNAPSHOT_CSV w) as [prev w0]. simpl in Hw. subst w0.
  pose proof (keeps_html_gather_enriched ss w) as Hhtml.
  destruct (gather_enriched ss w) as [enriched w1]. simpl in *.
  split.
  - by rewrite write_map_csv.
  - intros Hnil. rewrite write_map_nil by done. simpl. done.
Qed.

(** C5: after a run, the snapshot file holds the enriched records and the
    file of new listings holds those whose URL is not in the URL set of the
    previous snapshot; so an enriched record is left out of the new listings
    exactly when its URL is in that set.  Without a previous snapshot file
    the set is empty. *)
Theorem new_listings_are_the_diff (sites : list pystr) (w : World) (r : Row) :
  sites <> [] ->
  In r (gather_enriched sites w).1 ->
  let prev_urls := (load_prev_urls OUT_SNAPSHOT_CSV w).1 in
  let enriched := (gather_enriched sites w).1 in
  w_csv (run_sites sites w).2 !! OUT_SNAPSHOT_CSV = Some (COLUMNS :: map csv_record enriched)
  /\ w_csv (run_sites sites w).2 !! OUT_NEW_CSV
     = Some (COLUMNS :: map csv_record (new_rows prev_urls enriched))
  /\ (url r ∈ prev_urls <-> ~ In r (new_rows prev_urls enriched))
  /\ (url r ∉ prev_urls <-> In r (new_rows prev_urls enriched))
  /\ match w_csv w !! OUT_SNAPSHOT_CSV with
     | None => prev_urls = ∅
     | Some _ => True
     end.
Proof.
  intros Hsites Hin prev_urls enriched.
  destruct (run_sites_outputs sites w Hsites) as [Hcsv _]. fold prev_urls enriched in Hcsv.
  assert (Hnew : forall x, In x (new_rows prev_urls enriched)
                           <-> (url x ∉ prev_urls) /\ In x enriched).
  { intros x. unfold new_rows. by rewrite <- !list_elem_of_In, list_elem_of_filter. }
  repeat split.
  - rewrite Hcsv, lookup_insert_ne by (symmetry; apply snapshot_is_not_new).
    apply lookup_insert_eq.
  - rewrite Hcsv. apply lookup_insert_eq.
  - intros Hprev Hr. apply Hnew in Hr as [Hr _]. done.
  - intros Hr. destruct (decide (url r ∈ prev_urls)) as [|Hn]; [done|].
    exfalso. apply Hr, Hnew. done.
  - intros Hn. apply Hnew. done.
  - intros Hr. by apply Hnew in Hr as [Hr _].
  - subst prev_urls. unfold load_prev_urls. by destruct (w_csv w !! OUT_SNAPSHOT_CSV).
Qed.

(** C9: given records none of which has both coordinates, the map renderer
    writes no file and changes nothing but the output, to which it adds the
    warning. *)
Theorem write_map_without_points (rows : list Row) (w : World) :
  Forall (fun r => lat r = None \/ lon r = None) rows ->
  w_html (write_map rows w).2 = w_html w
  /\ w_csv (write_map rows w).2 = w_csv w
  /\ w_geo_json (write_map rows w).2 = w_geo_json w
  /\ w_rev_json (write_map rows w).2 = w_rev_json w
  /\ w_remote (write_map rows w).2 = w_remote w
  /\ w_calls (write_map rows w).2 = w_calls w
  /\ w_out (write_map rows w).2 = w_out w ++ [u "[WARN] Geen punten om te plotten."].
Proof.
  intros Hrows. rewrite write_map_nil by (by apply with_coords_nil).
  done.
Qed.

(** C10: the CSV writer given no record writes the file with the header of
    eleven columns as its only record; so a run without enriched records
    leaves a snapshot file that holds the header only, and does not write
    the map. *)
Theorem empty_snapshot_is_header_only (path : pystr) (sites : list pystr) (w : World) :
  sites <> [] ->
  (gather_enriched sites w).1 = [] ->
  w_csv (write_csv path [] w).2 !! path = Some [COLUMNS]
  /\ length COLUMNS = 11%nat
  /\ w_csv (run_sites sites w).2 !! OUT_SNAPSHOT_CSV = Some [COLUMNS]
  /\ w_html (run_sites sites w).2 = w_html w.
Proof.
  intros Hsites Hnone.
  destruct (run_sites_outputs sites w Hsites) as [Hcsv Hhtml].
  rewrite Hnone in Hcsv, Hhtml. simpl in Hcsv.
  repeat split.
  - simpl. apply lookup_insert_eq.
  - rewrite Hcsv, lookup_insert_ne by (symmetry; apply snapshot_is_not_new).
    apply lookup_insert_eq.
  - by apply Hhtml.
Qed.

End OutputFacts.

Section OutputExamples.
#[local] Existing Instances Demo.latin1 Demo.libs Demo.remote_site.

Lemma new_listings_are_the_diff_witness :
  In Demo.row0_enriched
     (new_rows (load_prev_urls OUT_SNAPSHOT_CSV Demo.world0).1
               (gather_enriched SITES Demo.world0).1)
  /\ ~ In Demo.row0_enriched
       (new_rows (load_prev_urls OUT_SNAPSHOT_CSV (run Demo.world0).2).1
                 (gather_enriched SITES (run Demo.world0).2).1).
Proof.
  assert (Hsites : SITES <> []) by done.
  assert (Hin1 : In Demo.row0_enriched (gather_enriched SITES Demo.world0).1)
    by (vm_compute; left; reflexivity).
  assert (Hin2 : In Demo.row0_enriched (gather_enriched SITES (run Demo.world0).2).1)
    by (vm_compute; left; reflexivity).
  pose proof (new_listings_are_the_diff SITES Demo.world0 Demo.row0_enriched Hsites Hin1)
    as H1.
  pose proof (new_listings_are_the_diff SITES (run Demo.world0).2 Demo.row0_enriched
                Hsites Hin2) as H2.
  cbv zeta in H1, H2.
  destruct H1 as (_ & _ & _ & H1 & _). destruct H2 as (_ & _ & H2 & _).
  split.
  - apply (proj1 H1). apply (bool_decide_unpack _). vm_compute. exact I.
  - apply (proj1 H2). apply (bool_decide_unpack _). vm_compute. exact I.
Defined.

Lemma write_map_without_points_witness :
  w_html (write_map [Demo.row0] Demo.world0).2 = w_html Demo.world0
  /\ w_out (write_map [Demo.row0] Demo.world0).2
     = w_out Demo.world0 ++ [u "[WARN] Geen punten om te plotten."].
Proof.
  assert (H : Forall (fun r => lat r = None \/ lon r = None) [Demo.row0]).
  { constructor; [|constructor]. left. vm_compute. reflexivity. }
  destruct (write_map_without_points [Demo.row0] Demo.world0 H)
    as (H1 & _ & _ & _ & _ & _ & H2).
  split; [exact H1 | exact H2].
Defined.

Lemma empty_snapshot_is_header_only_witness :
  w_csv (run_sites [Demo.other_site] Demo.world0).2 !! OUT_SNAPSHOT_CSV = Some [COLUMNS]
  /\ w_html (run_sites [Demo.other_site] Demo.world0).2 = w_html Demo.world0.
Proof.
  assert (Hsites : [Demo.other_site] <> []) by done.
  assert (Hnone : (gather_enriched [Demo.other_site] Demo.world0).1 = [])
    by (vm_compute; reflexivity).
  destruct (empty_snapshot_is_header_only OUT_SNAPSHOT_CSV [Demo.other_site] Demo.world0
              Hsites Hnone) as (_ & _ & H1 & H2).
  split; [exact H1 | exact H2].
Defined.

End OutputExamples.

(** * Further properties *)

(** ** Whitespace normalisation *)

Section NormFacts.
Context {UD : UnicodeData}.

Lemma rmatch_plus (p : N -> bool) (st : mstate) :
  rmatch (Plus (Cls p)) st Some = plus_loop p (length (m_rest st)) O st.
Proof. reflexivity. Qed.

Lemma after_run_pos (p : N -> bool) (rest : pystr) :
  forall prev pos caps, (pos <= m_pos (after_run p prev rest pos caps))%nat.
Proof.
  induction rest as [|c rest IH]; intros prev pos caps; simpl; [lia|].
  destruct (p c); simpl; [|lia]. etrans; [|apply IH]. lia.
Qed.

Lemma plus_loop_S (p : N -> bool) (fuel n : nat) (st : mstate) :
  plus_loop p (S fuel) n st
  = match m_rest st with
    | c :: rest' =>
        if p c then
          match (if (m_pos (advance c rest' st) =? m_pos st)%nat then None
                 else plus_loop p fuel (S n) (advance c rest' st)) with
          | Some x => Some x
          | None => if (1 <=? n)%nat then Some st else None
          end
        else if (1 <=? n)%nat then Some st else None
    | [] => if (1 <=? n)%nat then Some st else None
    end.
Proof. destruct st as [prev [|c rest] pos caps]; [done|]. simpl. by destruct (p c). Qed.

Lemma plus_loop_spec (p : N -> bool) (fuel : nat) :
  forall n prev rest pos caps,
    (length rest <= fuel)%nat ->
    plus_loop p fuel n {| m_prev := prev; m_rest := rest; m_pos := pos; m_caps := caps |}
    = if (1 <=? n + (m_pos (after_run p prev rest pos caps) - pos))%nat
      then Some (after_run p prev rest pos caps) else None.
Proof.
  induction fuel as [|fuel IH]; intros n prev rest pos caps Hlen.
  - destruct rest; [|simpl in Hlen; lia]. simpl.
    by rewrite Nat.sub_diag, Nat.add_0_r.
  - destruct rest as [|c rest].
    { simpl. by rewrite Nat.sub_diag, Nat.add_0_r. }
    rewrite plus_loop_S. cbn [m_rest after_run].
    destruct (p c) eqn:Hp.
    + unfold advance. cbn [m_pos m_caps m_prev].
      replace (S pos =? pos)%nat with false by (symmetry; apply Nat.eqb_neq; lia).
      rewrite IH by (simpl in Hlen; lia).
      pose proof (after_run_pos p rest (Some c) (S pos) caps) as Hpos.
      replace (1 <=? S n + _)%nat with true by (symmetry; apply Nat.leb_le; lia).
      replace (1 <=? n + _)%nat with true by (symmetry; apply Nat.leb_le; lia).
      done.
    + cbn [m_pos]. by rewrite Nat.sub_diag, Nat.add_0_r.
Qed.

Lemma after_run_spec (p : N -> bool) (rest : pystr) :
  forall prev pos caps,
    exists run after,
      rest = run ++ after /\ Forall (fun c => p c = true) run /\ starts_outside p after
      /\ m_rest (after_run p prev rest pos caps) = after
      /\ m_pos (after_run p prev rest pos caps) = (pos + length run)%nat.
Proof.
  induction rest as [|c rest IH]; intros prev pos caps; simpl.
  - exists [], []. by rewrite Nat.add_0_r.
  - destruct (p c) eqn:Hp.
    + destruct (IH (Some c) (S pos) caps) as (run & after & -> & Hrun & Hout & -> & ->).
      exists (c :: run), after. repeat split; try done; [by constructor|simpl; lia].
    + exists [], (c :: rest). simpl. by rewrite Nat.add_0_r.
Qed.

Lemma try_at_plus (p : N -> bool) (prev : option N) (rest : pystr) (pos : nat) :
  try_at (Plus (Cls p)) prev rest pos
  = match rest with
    | c :: rest' =>
        if p c then
          let st := after_run p (Some c) rest' (S pos) [] in
          Some {| mt_start := pos; mt_end := m_pos st; mt_after_prev := m_prev st;
                  mt_after := m_rest st; mt_caps := m_caps st |}
        else None
    | [] => None
    end.
Proof.
  unfold try_at. rewrite rmatch_plus. cbn [m_rest].
  rewrite plus_loop_spec by done. cbn [Nat.add].
  destruct rest as [|c rest]; simpl.
  { by rewrite Nat.sub_diag. }
  destruct (p c); simpl.
  - pose proof (after_run_pos p rest (Some c) (S pos) []) as Hpos.
    destruct (m_pos (after_run p (Some c) rest (S pos) []) - pos)%nat eqn:Hd; [lia|done].
  - by rewrite Nat.sub_diag.
Qed.

Lemma search_plus (p : N -> bool) (rest : pystr) :
  forall prev pos,
    match search_from (Plus (Cls p)) prev rest pos with
    | None => Forall (fun c => p c = false) rest
    | Some m =>
        exists pre c run after,
          rest = pre ++ c :: run ++ after
          /\ Forall (fun c => p c = false) pre /\ p c = true
          /\ Forall (fun c => p c = true) run /\ starts_outside p after
          /\ mt_start m = (pos + length pre)%nat
          /\ mt_end m = (pos + length pre + S (length run))%nat
          /\ mt_after m = after
    end.
Proof.
  induction rest as [|c rest IH]; intros prev pos.
  - cbn [search_from]. rewrite try_at_plus. constructor.
  - cbn [search_from]. rewrite try_at_plus.
    destruct (p c) eqn:Hp.
    + cbv zeta.
      destruct (after_run_spec p rest (Some c) (S pos) [])
        as (run & after & -> & Hrun & Hout & Hrest & Hpos).
      exists [], c, run, after. cbn [mt_start mt_end mt_after app length].
      repeat split; try done; lia.
    + specialize (IH (Some c) (S pos)).
      destruct (search_from (Plus (Cls p)) (Some c) rest (S pos)) as [m|].
      * destruct IH as (pre & c' & run & after & -> & Hpre & Hc' & Hrun & Hout & Hs & He & Ha).
        exists (c :: pre), c', run, after.
        repeat split; try done; [by constructor|simpl; lia|simpl; lia].
      * by constructor.
Qed.

Lemma collapse_runs_outside (p : N -> bool) (repl pre s : pystr) (b : bool) :
  Forall (fun c => p c = false) pre ->
  pre <> [] \/ b = false ->
  collapse_runs p repl b (pre ++ s) = pre ++ collapse_runs p repl false s.
Proof.
  intros Hpre. revert b. induction Hpre as [|c pre Hc _ IH]; intros b Hb; simpl.
  - by destruct Hb as [Hb | ->].
  - rewrite Hc. f_equal. apply IH. by right.
Qed.

Lemma collapse_runs_inside (p : N -> bool) (repl run s : pystr) :
  Forall (fun c => p c = true) run ->
  starts_outside p s ->
  collapse_runs p repl true (run ++ s) = collapse_runs p repl false s.
Proof.
  intros Hrun Hs. induction Hrun as [|c run Hc _ IH]; simpl.
  - destruct s as [|c s]; [done|]. simpl in *. by rewrite Hs.
  - by rewrite Hc.
Qed.

Lemma collapse_runs_none (p : N -> bool) (repl s : pystr) :
  Forall (fun c => p c = false) s -> collapse_runs p repl false s = s.
Proof.
  intros Hs. rewrite <- (app_nil_r s) at 1.
  rewrite collapse_runs_outside by auto. simpl. by rewrite app_nil_r.
Qed.

Lemma sub_loop_plus (p : N -> bool) (repl : pystr) (fuel : nat) :
  forall prev rest pos,
    (length rest < fuel)%nat ->
    sub_loop fuel (Plus (Cls p)) repl prev rest pos = collapse_runs p repl false rest.
Proof.
  induction fuel as [|fuel IH]; intros prev rest pos Hlen; [lia|].
  cbn [sub_loop].
  pose proof (search_plus p rest prev pos) as Hsearch.
  destruct (search_from (Plus (Cls p)) prev rest pos) as [m|].
  - destruct Hsearch as (pre & c & run & after & -> & Hpre & Hc & Hrun & Hout & Hs & He & Ha).
    cbv zeta. rewrite Hs, He, Ha.
    replace (pos + length pre + S (length run) =? pos + length pre)%nat with false
      by (symmetry; apply Nat.eqb_neq; lia).
    replace (pos + length pre - pos)%nat with (length pre) by lia.
    rewrite firstn_app, Nat.sub_diag, firstn_all. cbn [firstn]. rewrite app_nil_r.
    rewrite IH by (rewrite !length_app in Hlen; simpl in Hlen; rewrite length_app in Hlen; lia).
    rewrite collapse_runs_outside by auto. cbn [collapse_runs]. rewrite Hc.
    by rewrite collapse_runs_inside.
  - by rewrite collapse_runs_none.
Qed.

(** [norm] collapses every run of whitespace into one space and strips the
    ends. *)
Lemma norm_collapse (s : pystr) :
  norm s = strip (collapse_runs is_space (u " ") false s).
Proof.
  unfold norm, re_sub. by rewrite sub_loop_plus by lia.
Qed.

Lemma lstrip_by_snoc (p : N -> bool) (l : pystr) (c : N) :
  lstrip_by p (l ++ [c])
  = match lstrip_by p l with
    | [] => if p c then [] else [c]
    | t => t ++ [c]
    end.
Proof.
  induction l as [|a l IH]; simpl; [done|].
  by destruct (p a).
Qed.

Lemma strip_by_rstrip (p : N -> bool) (s : pystr) :
  strip_by p s = rstrip_by p (lstrip_by p s).
Proof.
  unfold strip_by. generalize (lstrip_by p s). clear s. intros s.
  induction s as [|c s IH]; [done|].
  cbn [rev rstrip_by]. rewrite lstrip_by_snoc, <- IH.
  destruct (lstrip_by p (rev s)) as [|a t]; simpl.
  - by destruct (p c).
  - rewrite rev_app_distr. simpl. by destruct (rev t ++ [a]) eqn:E; [destruct (rev t)|].
Qed.

Lemma lstrip_by_starts_outside (p : N -> bool) (s : pystr) :
  starts_outside p (lstrip_by p s).
Proof. induction s as [|c s IH]; simpl; [done|]. by destruct (p c) eqn:Hc. Qed.

Lemma lstrip_by_outside (p : N -> bool) (s : pystr) :
  starts_outside p s -> lstrip_by p s = s.
Proof. destruct s as [|c s]; simpl; [done|]. by intros ->. Qed.

Lemma rstrip_by_starts_outside (p : N -> bool) (s : pystr) :
  starts_outside p s -> starts_outside p (rstrip_by p s).
Proof.
  destruct s as [|c s]; simpl; [done|]. intros Hc.
  destruct (rstrip_by p s); [by rewrite Hc|done].
Qed.

Lemma rstrip_by_idem (p : N -> bool) (s : pystr) :
  rstrip_by p (rstrip_by p s) = rstrip_by p s.
Proof.
  induction s as [|c s IH]; simpl; [done|].
  destruct (rstrip_by p s) as [|a t] eqn:E.
  - destruct (p c) eqn:Hc; simpl; [done|]. by rewrite Hc.
  - cbn [rstrip_by]. cbn [rstrip_by] in IH. rewrite IH. done.
Qed.

Lemma starts_outside_app (p : N -> bool) (l x : pystr) :
  l <> [] -> starts_outside p l -> starts_outside p (l ++ x).
Proof. by destruct l. Qed.

Lemma rstrip_by_ends_outside (p : N -> bool) (s : pystr) :
  starts_outside p (rev (rstrip_by p s)).
Proof.
  induction s as [|c s IH]; simpl; [done|].
  destruct (rstrip_by p s) as [|a t] eqn:E.
  - by destruct (p c) eqn:Hc.
  - cbn [rev] in *. apply starts_outside_app; [|done].
    by destruct (rev t).
Qed.

Lemma strip_by_idem (p : N -> bool) (s : pystr) :
  strip_by p (strip_by p s) = strip_by p s.
Proof.
  rewrite !strip_by_rstrip.
  rewrite (lstrip_by_outside p (rstrip_by p (lstrip_by p s))).
  - apply rstrip_by_idem.
  - apply rstrip_by_starts_outside, lstrip_by_starts_outside.
Qed.

Lemma space_is_space : is_space 32 = true.
Proof. reflexivity. Qed.

Lemma single_spaced_collapse (s : pystr) :
  forall b, single_spaced b (collapse_runs is_space (u " ") b s) = true.
Proof.
  change (u " ") with [32].
  induction s as [|c s IH]; intros b; simpl; [done|].
  destruct (is_space c) eqn:Hc.
  - destruct b; simpl; apply IH.
  - simpl. rewrite Hc. apply IH.
Qed.

Lemma single_spaced_fixed (s : pystr) :
  forall b, single_spaced b s = true -> collapse_runs is_space (u " ") b s = s.
Proof.
  change (u " ") with [32].
  induction s as [|c s IH]; intros b; simpl; [done|].
  destruct (is_space c) eqn:Hc.
  - intros H. apply andb_true_iff in H as [H Hs]. apply andb_true_iff in H as [Heq Hb].
    apply N.eqb_eq in Heq as ->. destruct b; [done|]. simpl. by rewrite IH.
  - intros H. by rewrite IH.
Qed.

Lemma single_spaced_lstrip (s : pystr) :
  forall b, single_spaced b s = true -> single_spaced false (lstrip_by is_space s) = true.
Proof.
  induction s as [|c s IH]; intros b; simpl; [done|].
  destruct (is_space c) eqn:Hc.
  - intros H. apply andb_true_iff in H as [_ Hs]. by apply (IH true).
  - intros H. simpl. by rewrite Hc.
Qed.

Lemma single_spaced_rstrip (s : pystr) :
  forall b, single_spaced b s = true -> single_spaced b (rstrip_by is_space s) = true.
Proof.
  induction s as [|c s IH]; intros b; [done|].
  cbn [single_spaced rstrip_by].
  destruct (is_space c) eqn:Hc.
  - intros H. apply andb_true_iff in H as [H Hs]. specialize (IH true Hs).
    destruct (rstrip_by is_space s) as [|a t]; [done|].
    cbn [single_spaced] in *. by rewrite Hc, H.
  - intros H. specialize (IH false H).
    destruct (rstrip_by is_space s) as [|a t].
    + cbn [single_spaced]. by rewrite Hc.
    + cbn [single_spaced] in *. by rewrite Hc.
Qed.

Lemma norm_single_spaced (s : pystr) : single_spaced false (norm s) = true.
Proof.
  rewrite norm_collapse. unfold strip. rewrite strip_by_rstrip.
  apply single_spaced_rstrip. eapply single_spaced_lstrip, single_spaced_collapse.
Qed.

Lemma single_spaced_chars (s : pystr) :
  forall b c, single_spaced b s = true -> In c s -> is_space c = true -> c = 32.
Proof.
  induction s as [|a s IH]; intros b c; simpl; [done|].
  destruct (is_space a) eqn:Ha.
  - intros H [<-|Hin] Hc.
    + apply andb_true_iff in H as [H _]. apply andb_true_iff in H as [H _].
      by apply N.eqb_eq in H.
    + apply andb_true_iff in H as [_ H]. by apply (IH true).
  - intros H [<-|Hin] Hc; [congruence|]. by apply (IH false).
Qed.

Lemma single_spaced_apart (s : pystr) :
  forall b l1 c1 c2 l2,
    single_spaced b s = true -> s = l1 ++ c1 :: c2 :: l2 ->
    is_space c1 = true -> is_space c2 = false.
Proof.
  induction s as [|a s IH]; intros b l1 c1 c2 l2 H Hs Hc1.
  - by destruct l1.
  - destruct l1 as [|a' l1]; injection Hs as -> ->.
    + simpl in H. rewrite Hc1 in H. apply andb_true_iff in H as [_ H].
      simpl in H. destruct (is_space c2); [|done].
      apply andb_true_iff in H as [H _]. apply andb_true_iff in H as [_ H]. done.
    + simpl in H. destruct (is_space a').
      * apply andb_true_iff in H as [_ H]. by eapply (IH true).
      * by eapply (IH false).
Qed.

Lemma filter_lstrip (s : pystr) :
  List.filter (fun c => negb (is_space c)) (lstrip_by is_space s)
  = List.filter (fun c => negb (is_space c)) s.
Proof.
  induction s as [|c s IH]; simpl; [done|].
  destruct (is_space c) eqn:Hc; simpl; [done|]. by rewrite Hc.
Qed.

Lemma filter_rstrip (s : pystr) :
  List.filter (fun c => negb (is_space c)) (rstrip_by is_space s)
  = List.filter (fun c => negb (is_space c)) s.
Proof.
  induction s as [|c s IH]; simpl; [done|]. rewrite <- IH.
  destruct (rstrip_by is_space s) as [|a t]; [|done].
  by destruct (is_space c) eqn:Hc; simpl; rewrite ?Hc.
Qed.

Lemma filter_collapse (s : pystr) :
  forall b,
    List.filter (fun c => negb (is_space c)) (collapse_runs is_space (u " ") b s)
    = List.filter (fun c => negb (is_space c)) s.
Proof.
  change (u " ") with [32].
  induction s as [|c s IH]; intros b; simpl; [done|].
  destruct (is_space c) eqn:Hc; simpl.
  - destruct b; simpl; apply IH.
  - rewrite Hc. simpl. by rewrite IH.
Qed.

(** X1: The text [norm] returns neither starts nor ends with whitespace, its
    only whitespace characters are spaces (U+0020), and no two of them are
    adjacent; the other characters of the argument are all kept, in
    order. *)
Theorem norm_shape (s : pystr) :
  starts_outside is_space (norm s)
  /\ starts_outside is_space (rev (norm s))
  /\ (forall c, In c (norm s) -> is_space c = true -> c = 32)
  /\ (forall l1 c1 c2 l2,
         norm s = l1 ++ c1 :: c2 :: l2 -> is_space c1 = true -> is_space c2 = false)
  /\ List.filter (fun c => negb (is_space c)) (norm s)
     = List.filter (fun c => negb (is_space c)) s.
Proof.
  pose proof (norm_single_spaced s) as Hss.
  repeat split.
  - rewrite norm_collapse. unfold strip. rewrite strip_by_rstrip.
    apply rstrip_by_starts_outside, lstrip_by_starts_outside.
  - rewrite norm_collapse. unfold strip. rewrite strip_by_rstrip.
    apply rstrip_by_ends_outside.
  - intros c. by apply single_spaced_chars with (b := false).
  - intros l1 c1 c2 l2. by apply single_spaced_apart with (b := false).
  - rewrite norm_collapse. unfold strip. rewrite strip_by_rstrip.
    by rewrite filter_rstrip, filter_lstrip, filter_collapse.
Qed.

Lemma norm_of_stripped_collapse (s : pystr) :
  norm (strip (collapse_runs is_space (u " ") false s))
  = strip (collapse_runs is_space (u " ") false s).
Proof.
  rewrite norm_collapse. rewrite single_spaced_fixed; [apply strip_by_idem|].
  rewrite <- norm_collapse. apply norm_single_spaced.
Qed.

(** X2: Normalising twice is normalising once. *)
Theorem norm_idempotent (s : pystr) : norm (norm s) = norm s.
Proof. rewrite (norm_collapse s). apply norm_of_stripped_collapse. Qed.

End NormFacts.

(** ** The postal code *)

Section PostcodeFacts.
Context {UD : UnicodeData}.

Lemma rmatch_rep (lo : nat) (hi : option nat) (r : regex) (st : mstate)
  (k : mstate -> option mstate) :
  rmatch (Rep lo hi r) st k = rep_loop k lo hi r (length (m_rest st)) O st.
Proof. reflexivity. Qed.

Lemma rmatch_cat (r1 r2 : regex) (st : mstate) (k : mstate -> option mstate) :
  rmatch (Cat r1 r2) st k = rmatch r1 st (fun st' => rmatch r2 st' k).
Proof. reflexivity. Qed.

Lemma rmatch_grp (i : nat) (r : regex) (st : mstate) (k : mstate -> option mstate) :
  rmatch (Grp i r) st k
  = rmatch r st (fun st' => k (set_cap i (m_pos st) (m_pos st') st')).
Proof. reflexivity. Qed.

Lemma rmatch_wordb (st : mstate) (k : mstate -> option mstate) :
  rmatch WordB st k
  = if xorb (word_opt (m_prev st)) (word_opt (head (m_rest st))) then k st else None.
Proof. reflexivity. Qed.

Lemma rmatch_eps (st : mstate) (k : mstate -> option mstate) : rmatch Eps st k = k st.
Proof. reflexivity. Qed.

(** What a repetition of a character class consumes before the
    continuation succeeds. *)
Lemma rep_cls_sound (k : mstate -> option mstate) (lo : nat) (hi : option nat)
  (p : N -> bool) (fuel : nat) :
  forall n st res,
    rep_loop k lo hi (Cls p) fuel n st = Some res ->
    exists cs st',
      m_rest st = cs ++ m_rest st'
      /\ Forall (fun c => p c = true) cs
      /\ (lo <= n + length cs)%nat
      /\ (forall h, hi = Some h -> (length cs <= h - n)%nat)
      /\ m_pos st' = (m_pos st + length cs)%nat
      /\ m_caps st' = m_caps st
      /\ k st' = Some res.
Proof.
  induction fuel as [|fuel IH]; intros n st res Hres.
  - simpl in Hres. destruct (lo <=? n)%nat eqn:Hlo; [|done].
    apply Nat.leb_le in Hlo.
    exists [], st. simpl. repeat split; try done; try lia.
  - assert (Hstop : (if (lo <=? n)%nat then k st else None) = Some res ->
                    exists cs st',
                      m_rest st = cs ++ m_rest st'
                      /\ Forall (fun c => p c = true) cs
                      /\ (lo <= n + length cs)%nat
                      /\ (forall h, hi = Some h -> (length cs <= h - n)%nat)
                      /\ m_pos st' = (m_pos st + length cs)%nat
                      /\ m_caps st' = m_caps st
                      /\ k st' = Some res).
    { intros H. destruct (lo <=? n)%nat eqn:Hlo; [|done]. apply Nat.leb_le in Hlo.
      exists [], st. simpl. repeat split; try done; try lia. }
    cbn [rep_loop] in Hres. fold (rep_loop k lo hi (Cls p)) in Hres.
    destruct (more_allowed hi n) eqn:Hmore; [|by apply Hstop].
    cbn [rmatch] in Hres.
    destruct (m_rest st) as [|c rest'] eqn:Hrest; [by apply Hstop|].
    destruct (p c) eqn:Hp; [|by apply Hstop].
    cbn [advance m_pos] in Hres.
    replace (S (m_pos st) =? m_pos st)%nat with false in Hres
      by (symmetry; apply Nat.eqb_neq; lia).
    destruct (rep_loop k lo hi (Cls p) fuel (S n) (advance c rest' st)) as [x|] eqn:Hloop;
      [|by apply Hstop].
    injection Hres as ->.
    apply IH in Hloop as (cs & st' & Hcs & Hall & Hlo & Hhi & Hpos & Hcaps & Hk).
    exists (c :: cs), st'. cbn [advance m_rest m_pos m_caps] in *.
    repeat split; try done.
    + by rewrite Hcs.
    + by constructor.
    + simpl. lia.
    + intros h Hh. specialize (Hhi h Hh). simpl. rewrite Hh in Hmore. simpl in Hmore.
      apply Nat.ltb_lt in Hmore. lia.
    + simpl. lia.
Qed.

Lemma search_from_at (r : regex) (rest : pystr) :
  forall prev pos m,
    search_from r prev rest pos = Some m ->
    exists pre rest' prev',
      rest = pre ++ rest' /\ try_at r prev' rest' (pos + length pre) = Some m.
Proof.
  induction rest as [|c rest IH]; intros prev pos m; cbn [search_from].
  - destruct (try_at r prev [] pos) eqn:Ht; [|done]. intros [= <-].
    exists [], [], prev. by rewrite Nat.add_0_r.
  - destruct (try_at r prev (c :: rest) pos) eqn:Ht.
    + intros [= <-]. exists [], (c :: rest), prev. by rewrite Nat.add_0_r.
    + intros H. apply IH in H as (pre & rest' & prev' & -> & H).
      exists (c :: pre), rest', prev'. split; [done|].
      by replace (pos + length (c :: pre))%nat with (S pos + length pre)%nat
        by (simpl; lia).
Qed.

(** A match of the postal code pattern at a position: four digits, maybe
    whitespace, two letters, and the two groups around the digits and the
    letters. *)
Lemma postcode_at (prev : option N) (rest : pystr) (pos : nat) (m : pymatch) :
  try_at POSTCODE_RE prev rest pos = Some m ->
  exists ds ws ls after,
    rest = ds ++ ws ++ ls ++ after
    /\ length ds = 4%nat /\ Forall (fun c => is_digit c = true) ds
    /\ Forall (fun c => is_space c = true) ws
    /\ length ls = 2%nat /\ Forall (fun c => letter_i c = true) ls
    /\ mt_caps m = [(2%nat, ((pos + 4 + length ws)%nat, (pos + 4 + length ws + 2)%nat));
                    (1%nat, (pos, (pos + 4)%nat))].
Proof.
  unfold try_at.
  destruct (rmatch POSTCODE_RE _ Some) as [st|] eqn:Hm; [|done].
  intros [= <-]. cbn [mt_caps].
  unfold POSTCODE_RE, Seq, Times, Star in Hm. cbn [fold_right] in Hm.
  rewrite rmatch_cat, rmatch_wordb in Hm.
  match type of Hm with (if ?b then _ else _) = _ => destruct b; [|done] end.
  rewrite rmatch_cat, rmatch_grp, rmatch_rep in Hm.
  apply rep_cls_sound in Hm as (ds & st1 & Hds & Hdig & Hlo1 & Hhi1 & Hpos1 & Hcaps1 & Hm).
  specialize (Hhi1 4%nat eq_refl).
  assert (Hlen1 : length ds = 4%nat) by lia.
  cbn [m_rest m_pos m_caps] in *.
  rewrite rmatch_cat, rmatch_rep in Hm.
  apply rep_cls_sound in Hm as (ws & st2 & Hws & Hsp & _ & _ & Hpos2 & Hcaps2 & Hm).
  cbn [set_cap m_rest m_pos m_caps] in *.
  rewrite rmatch_cat, rmatch_grp, rmatch_rep in Hm.
  apply rep_cls_sound in Hm as (ls & st3 & Hls & Hlet & Hlo3 & Hhi3 & Hpos3 & Hcaps3 & Hm).
  specialize (Hhi3 2%nat eq_refl).
  assert (Hlen3 : length ls = 2%nat) by lia.
  rewrite rmatch_cat, rmatch_wordb in Hm.
  match type of Hm with (if ?b then _ else _) = _ => destruct b; [|done] end.
  rewrite rmatch_eps in Hm. injection Hm as <-. cbn [set_cap m_caps].
  exists ds, ws, ls, (m_rest st3).
  rewrite Hds, Hws, Hls, Hcaps3, Hcaps2, Hcaps1, Hpos3, Hpos2, Hpos1, Hlen1, Hlen3.
  by repeat split.
Qed.

Lemma slice_middle (pre mid post : pystr) :
  slice (pre ++ mid ++ post) (length pre) (length pre + length mid) = mid.
Proof.
  unfold slice. rewrite drop_app_length.
  replace (length pre + length mid - length pre)%nat with (length mid) by lia.
  by rewrite take_app_length.
Qed.

(** X3: What [extract_postcode] returns is empty, or seven characters: four
    digits, one space and two letters.  The digits and the letters are
    those of the text, where only whitespace may stand between them. *)
Theorem extract_postcode_shape (text : pystr) :
  extract_postcode text = []
  \/ exists pre ds ws ls after,
       text = pre ++ ds ++ ws ++ ls ++ after
       /\ extract_postcode text = ds ++ u " " ++ ls
       /\ length ds = 4%nat /\ Forall (fun c => is_digit c = true) ds
       /\ Forall (fun c => is_space c = true) ws
       /\ length ls = 2%nat /\ Forall (fun c => letter_i c = true) ls.
Proof.
  unfold extract_postcode, re_search.
  destruct (search_from POSTCODE_RE None text O) as [m|] eqn:Hs; [right|by left].
  apply search_from_at in Hs as (pre & rest' & prev' & -> & Hat).
  apply postcode_at in Hat as (ds & ws & ls & after & -> & Hl1 & Hd & Hw & Hl2 & Hl & Hcaps).
  exists pre, ds, ws, ls, after. repeat split; try done.
  unfold group. rewrite Hcaps. cbn [cap_lookup Nat.eqb Nat.add].
  f_equal; [|f_equal].
  - rewrite <- Hl1. apply slice_middle.
  - rewrite <- Hl1, <- Hl2.
    replace (pre ++ ds ++ ws ++ ls ++ after) with ((pre ++ ds ++ ws) ++ ls ++ after)
      by (by rewrite <- !app_assoc).
    replace (length pre + length ds + length ws)%nat with (length (pre ++ ds ++ ws))
      by (rewrite !length_app; lia).
    apply slice_middle.
Qed.

End PostcodeFacts.

(** ** Address variants *)

Section VariantFacts.
Context {UD : UnicodeData}.

Lemma uniq_norm_spec (variants : list pystr) :
  forall (out : list pystr) (seen : gset pystr),
    (forall x, x ∈ seen <-> In x out) ->
    NoDup out ->
    Forall (fun x => truthy x = true) out ->
    NoDup (uniq_norm variants out seen)
    /\ Forall (fun x => truthy x = true) (uniq_norm variants out seen)
    /\ (forall x, In x (uniq_norm variants out seen) <->
                  In x out \/ exists v, In v variants /\ x = norm v /\ truthy x = true).
Proof.
  induction variants as [|v variants IH]; intros out seen Hseen Hnodup Htruthy; simpl.
  - repeat split; [done..| |]; [tauto|]. intros [H|(v & [] & _)]. done.
  - destruct (truthy (norm v)) eqn:Ht; simpl.
    + case_bool_decide as Hin; simpl.
      * destruct (IH out seen Hseen Hnodup Htruthy) as (H1 & H2 & H3).
        repeat split; [done..| |].
        -- intros Hx. apply H3 in Hx as [Hx|(v' & Hv' & Hx)]; [by left|].
           right. exists v'. split; [by right|done].
        -- intros [Hx|(v' & [<-|Hv'] & -> & Hx)]; apply H3.
           ++ by left.
           ++ left. by apply Hseen.
           ++ right. by exists v'.
      * assert (Hnot : ~ In (norm v) out) by (by rewrite <- Hseen).
        destruct (IH (out ++ [norm v]) ({[norm v]} ∪ seen)) as (H1 & H2 & H3).
        { intros x. rewrite in_app_iff, elem_of_union, elem_of_singleton, Hseen.
          simpl. split; [intros [->|?]; tauto|intros [?|[<-|[]]]; tauto]. }
        { apply NoDup_app. repeat split; [done| |apply NoDup_singleton].
          intros x Hx. rewrite list_elem_of_In in Hx. rewrite list_elem_of_In. simpl.
          intros [<-|[]]. done. }
        { apply Forall_app. split; [done|]. by constructor. }
        repeat split; [done..| |].
        -- intros Hx. apply H3 in Hx as [Hx|(v' & Hv' & Hx)].
           ++ apply in_app_iff in Hx as [Hx|[<-|[]]]; [by left|].
              right. exists v. split; [by left|done].
           ++ right. exists v'. split; [by right|done].
        -- intros [Hx|(v' & [<-|Hv'] & -> & Hx)]; apply H3.
           ++ left. apply in_app_iff. by left.
           ++ left. apply in_app_iff. right. by left.
           ++ right. by exists v'.
    + destruct (IH out seen Hseen Hnodup Htruthy) as (H1 & H2 & H3).
      repeat split; [done..| |].
      * intros Hx. apply H3 in Hx as [Hx|(v' & Hv' & Hx)]; [by left|].
        right. exists v'. split; [by right|done].
      * intros [Hx|(v' & [<-|Hv'] & -> & Hx)]; apply H3.
        -- by left.
        -- congruence.
        -- right. by exists v'.
Qed.

Lemma fallback_is_normal : norm (u "Limburg, Nederland") = u "Limburg, Nederland".
Proof. vm_compute. reflexivity. Qed.

Lemma uniq_norm_from_nothing (variants : list pystr) :
  NoDup (uniq_norm variants [] ∅)
  /\ Forall (fun x => truthy x = true) (uniq_norm variants [] ∅)
  /\ (forall x, In x (uniq_norm variants [] ∅) <->
                exists v, In v variants /\ x = norm v /\ truthy x = true).
Proof.
  destruct (uniq_norm_spec variants [] ∅) as (H1 & H2 & H3).
  { intros x. rewrite elem_of_empty. simpl. tauto. }
  { constructor. }
  { constructor. }
  split; [done|]. split; [done|].
  intros x. rewrite H3. simpl. tauto.
Qed.

Lemma fallback_is_a_variant (row : Row) :
  In (u "Limburg, Nederland") (guess_address_variants row).
Proof.
  unfold guess_address_variants. cbv zeta.
  apply uniq_norm_from_nothing. exists (u "Limburg, Nederland").
  split; [|by rewrite fallback_is_normal].
  apply in_app_iff. right. by left.
Qed.

(** X4: The address variants of a record are pairwise different, none is empty
    and each is in normal form (normalising it changes nothing); the coarse
    fallback "Limburg, Nederland" is always among them, so the list is
    never empty. *)
Theorem guess_address_variants_shape (row : Row) :
  NoDup (guess_address_variants row)
  /\ Forall (fun v => v <> [] /\ norm v = v) (guess_address_variants row)
  /\ In (u "Limburg, Nederland") (guess_address_variants row)
  /\ guess_address_variants row <> [].
Proof.
  pose proof (fallback_is_a_variant row) as Hfall.
  unfold guess_address_variants in *. cbv zeta in *.
  match goal with |- context [uniq_norm ?vs [] ∅] => set (variants := vs) in * end.
  destruct (uniq_norm_from_nothing variants) as (H1 & H2 & H3).
  split; [done|]. split; [|split; [done|]].
  - apply Forall_forall. intros x Hx. apply list_elem_of_In in Hx.
    apply H3 in Hx as (v & _ & -> & Hv). split.
    + intros Hnil. by rewrite Hnil in Hv.
    + rewrite (norm_collapse v). apply norm_of_stripped_collapse.
  - intros Hnil. by rewrite Hnil in Hfall.
Qed.

End VariantFacts.

(** ** Requests and caches of the enrichment *)

Section CacheFacts.
Context {UD : UnicodeData} {LB : Libs} {RM : Remote}.

Lemma uniq_norm_length (variants : list pystr) :
  forall out seen,
    (length (uniq_norm variants out seen) <= length out + length variants)%nat.
Proof.
  induction variants as [|v variants IH]; intros out seen; simpl; [lia|].
  destruct (truthy (norm v) && negb (bool_decide (norm v ∈ seen))).
  - etrans; [apply IH|]. rewrite length_app. simpl. lia.
  - etrans; [apply IH|]. lia.
Qed.

Lemma guess_address_variants_length (row : Row) :
  (length (guess_address_variants row) <= 5)%nat.
Proof.
  unfold guess_address_variants. cbv zeta.
  etrans; [apply uniq_norm_length|].
  repeat match goal with |- context [if ?b then _ else _] => destruct b end;
    simpl; lia.
Qed.

(** What one lookup sends to the service: forward requests only, for
    variants of the record, each of them at most once and in order. *)
Lemma resolve_latlon_calls (r : Row) (gc : gmap pystr (Q * Q)) (w : World) :
  exists asked answers,
    w_calls (resolve_latlon r gc w).2
    = w_calls w ++ zip_with EvGeocode asked answers
    /\ length answers = length asked
    /\ asked `prefix_of` guess_address_variants r.
Proof.
  unfold resolve_latlon.
  destruct (cached_latlon gc r) as [ll|].
  { exists [], []. simpl. rewrite app_nil_r. repeat split. apply prefix_nil. }
  unfold mbind, M_bind, mret, M_ret.
  destruct (geocode_variants (guess_address_variants r) w)
    as [[[[la lo] used]|] w1] eqn:Hgeo; simpl.
  - apply geocode_variants_found in Hgeo
      as (pre & post & loc & Hv & _ & _ & Hcalls & _).
    exists (pre ++ [used]), (map (fun _ => None) pre ++ [Some loc]).
    rewrite Hcalls, Hv. repeat split.
    + f_equal. rewrite zip_with_app by (by rewrite length_map). f_equal.
      clear. induction pre; simpl; [done|]. by f_equal.
    + by rewrite !length_app, length_map.
    + exists post. by rewrite <- app_assoc.
  - apply geocode_variants_not_found in Hgeo as [Hcalls _].
    exists (guess_address_variants r), (map (fun _ => None) (guess_address_variants r)).
    rewrite Hcalls. repeat split.
    + f_equal. generalize (guess_address_variants r).
      intros l. induction l; simpl; [done|]. by f_equal.
    + by rewrite length_map.
    + done.
Qed.

(** X5: One lookup sends at most five requests to the service. *)
Theorem at_most_five_requests_per_record (r : Row) (gc : gmap pystr (Q * Q)) (w : World) :
  exists requests,
    w_calls (resolve_latlon r gc w).2 = w_calls w ++ requests
    /\ (length requests <= 5)%nat
    /\ Forall (fun e => exists addr answer,
                   e = EvGeocode addr answer /\ In addr (guess_address_variants r))
              requests.
Proof.
  destruct (resolve_latlon_calls r gc w) as (asked & answers & Hcalls & Hlen & Hpre).
  exists (zip_with EvGeocode asked answers). split; [done|]. split.
  - rewrite length_zip_with, Hlen, Nat.min_id.
    etrans; [apply prefix_length, Hpre|]. apply guess_address_variants_length.
  - destruct Hpre as [post Hpost].
    assert (Hin : forall a, In a asked -> In a (guess_address_variants r)).
    { intros a Ha. rewrite Hpost. apply in_app_iff. by left. }
    clear Hcalls Hpost. revert answers Hlen.
    induction asked as [|a asked IH]; intros [|ans answers] Hlen; simpl; try done.
    constructor.
    + exists a, ans. split; [done|]. apply Hin. by left.
    + apply IH; [|by injection Hlen]. intros a' Ha'. apply Hin. by right.
Qed.

(** X6: A record is dropped for lack of a coordinate only after the service
    was asked for the coarse fallback and returned nothing. *)
Theorem dropped_after_asking_for_the_fallback (r : Row) (gc : gmap pystr (Q * Q))
  (w : World) :
  (resolve_latlon r gc w).1.1 = None ->
  In (EvGeocode (u "Limburg, Nederland") None) (w_calls (resolve_latlon r gc w).2)
  /\ gc !! url r = None
  /\ gc !! u "Limburg, Nederland" = None.
Proof.
  unfold resolve_latlon, cached_latlon.
  destruct (gc !! url r) as [ll|] eqn:Hurl; [done|].
  destruct (cached_variant gc (guess_address_variants r)) as [ll|] eqn:Hvar; [done|].
  apply cached_variant_none in Hvar.
  unfold mbind, M_bind, mret, M_ret.
  destruct (geocode_variants (guess_address_variants r) w)
    as [[[[la lo] used]|] w1] eqn:Hgeo; simpl; [done|].
  intros _. apply geocode_variants_not_found in Hgeo as [Hcalls _].
  pose proof (fallback_is_a_variant r) as Hfall.
  split; [|split; [done|]].
  - rewrite Hcalls. apply in_app_iff. right.
    apply in_map_iff. by exists (u "Limburg, Nederland").
  - rewrite Forall_forall in Hvar. apply Hvar. by apply list_elem_of_In.
Qed.

End CacheFacts.

(** ** The cache files and the enriched list *)

Section LoopFacts.
Context {UD : UnicodeData} {LB : Libs} {RM : Remote}.

Lemma geocode_and_enrich_rows_loop (rows : list Row) (w : World) :
  let loop := enrich_loop (get_center_latlon w).1 rows (default ∅ (w_geo_json w))
                (default ∅ (w_rev_json w)) [] (get_center_latlon w).2 in
  (geocode_and_enrich_rows rows w).1 = loop.1
  /\ w_geo_json (geocode_and_enrich_rows rows w).2 = w_geo_json loop.2
  /\ w_rev_json (geocode_and_enrich_rows rows w).2 = w_rev_json loop.2
  /\ w_csv (geocode_and_enrich_rows rows w).2 = w_csv loop.2
  /\ w_calls (geocode_and_enrich_rows rows w).2 = w_calls loop.2.
Proof.
  unfold geocode_and_enrich_rows, load_geo_cache, load_rev_cache, print,
    mbind, M_bind, mret, M_ret.
  destruct (get_center_latlon w) as [center w1].
  cbn [fst snd]. cbv zeta.
  destruct (enrich_loop _ _ _ _ _ _) as [enriched w2].
  by repeat split.
Qed.

Lemma get_center_latlon_world (w : World) :
  same_files w (get_center_latlon w).2
  /\ exists answer,
       w_calls (get_center_latlon w).2 = w_calls w ++ [EvGeocode CENTER_NAME answer].
Proof.
  unfold get_center_latlon, mbind, M_bind, mret, M_ret, geocode, with_remote.
  destruct (nominatim_geocode CENTER_NAME (w_remote w)) as [[loc|] rm]; simpl;
    (split; [by repeat split|eauto]).
Qed.

(** *** The cache files only grow *)

Lemma resolve_latlon_cache (r : Row) (gc : gmap pystr (Q * Q)) (w : World) :
  gc ⊆ (resolve_latlon r gc w).1.2
  /\ w_rev_json (resolve_latlon r gc w).2 = w_rev_json w
  /\ ((resolve_latlon r gc w).1.2 = gc
      /\ w_geo_json (resolve_latlon r gc w).2 = w_geo_json w
      \/ w_geo_json (resolve_latlon r gc w).2 = Some (resolve_latlon r gc w).1.2).
Proof.
  unfold resolve_latlon.
  destruct (cached_latlon gc r) as [ll|] eqn:Hc; simpl; [by auto|].
  unfold cached_latlon in Hc.
  destruct (gc !! url r) eqn:Hurl; [done|]. apply cached_variant_none in Hc.
  unfold mbind, M_bind, mret, M_ret.
  destruct (geocode_variants (guess_address_variants r) w)
    as [[[[la lo] used]|] w1] eqn:Hgeo; simpl.
  - apply geocode_variants_found in Hgeo
      as (pre & post & loc & Hv & _ & _ & _ & (_ & _ & Hrev & _)).
    split; [|by auto].
    assert (Hused : gc !! used = None).
    { rewrite Forall_forall in Hc. apply Hc. rewrite Hv.
      apply list_elem_of_In, in_app_iff. right. by left. }
    etrans; [apply (insert_subseteq gc (url r) (la, lo) Hurl)|].
    destruct (decide (used = url r)) as [->|Hne].
    + by rewrite insert_insert_eq.
    + apply insert_subseteq. by rewrite lookup_insert_ne.
  - apply geocode_variants_not_found in Hgeo as [_ (_ & Hg & Hrev & _)].
    by auto.
Qed.

Lemma resolve_municipality_cache (la lo : Q) (rc : gmap pystr pystr) (w : World) :
  rc ⊆ (resolve_municipality la lo rc w).1.2
  /\ w_geo_json (resolve_municipality la lo rc w).2 = w_geo_json w
  /\ ((resolve_municipality la lo rc w).1.2 = rc
      /\ w_rev_json (resolve_municipality la lo rc w).2 = w_rev_json w
      \/ w_rev_json (resolve_municipality la lo rc w).2
         = Some (resolve_municipality la lo rc w).1.2).
Proof.
  unfold resolve_municipality. cbv zeta.
  destruct (rc !! _) as [m|] eqn:Hkey; simpl; [by auto|].
  unfold mbind, M_bind, mret, M_ret, reverse, with_remote.
  destruct (nominatim_reverse (la, lo) (w_remote w)) as [ [ | | [ | addr ] ] rm ]; simpl;
    try by auto.
  split; [|by auto]. by apply insert_subseteq.
Qed.

Lemma enrich_row_caches c r gc rc w :
  cache_ahead gc rc w ->
  cache_ahead (enrich_row c r gc rc w).1.1.2 (enrich_row c r gc rc w).1.2
              (enrich_row c r gc rc w).2
  /\ files_grow w (enrich_row c r gc rc w).2.
Proof.
  intros [Hg Hr]. unfold enrich_row, mbind, M_bind, mret, M_ret.
  pose proof (resolve_latlon_cache r gc w) as (Hsub & Hrev & Hfile).
  destruct (resolve_latlon r gc w) as [[ll gc1] w1]; simpl in *.
  assert (H1 : cache_ahead gc1 rc w1 /\ files_grow w w1).
  { unfold cache_ahead, files_grow. rewrite Hrev.
    destruct Hfile as [ [-> ->] | -> ]; simpl; [by repeat split|].
    repeat split; try done. by etrans. }
  destruct H1 as [[Hg1 Hr1] [Hgg Hgr]].
  destruct ll as [[la lo]|]; simpl; [|done].
  destruct (negb _); simpl; [done|].
  pose proof (resolve_municipality_cache la lo rc w1) as (Hsub2 & Hgeo2 & Hfile2).
  destruct (resolve_municipality la lo rc w1) as [[mun rc1] w2]; simpl in *.
  unfold cache_ahead, files_grow. rewrite Hgeo2.
  destruct Hfile2 as [ [-> ->] | -> ]; simpl; [by repeat split|].
  repeat split; try done. etrans; [exact Hgr|]. by etrans.
Qed.

Lemma enrich_loop_caches c rows :
  forall gc rc enriched w,
    cache_ahead gc rc w ->
    files_grow w (enrich_loop c rows gc rc enriched w).2.
Proof.
  induction rows as [|r rows IH]; intros gc rc enriched w Hahead; simpl; [done|].
  unfold mbind, M_bind.
  pose proof (enrich_row_caches c r gc rc w Hahead) as [Hahead1 [Hg Hr]].
  destruct (enrich_row c r gc rc w) as [[[out gc1] rc1] w1]; simpl in *.
  assert (H : forall e, files_grow w (enrich_loop c rows gc1 rc1 e w1).2).
  { intros e. destruct (IH gc1 rc1 e w1 Hahead1) as [Hg' Hr'].
    split; by etrans. }
  destruct out; apply H.
Qed.

(** X7: The enrichment never removes or changes an entry of the two cache
    files: what [geo_cache.json] and [reverse_cache.json] hold before is
    still there, under the same keys, afterwards. *)
Theorem cache_files_only_grow (rows : list Row) (w : World) :
  default ∅ (w_geo_json w) ⊆ default ∅ (w_geo_json (geocode_and_enrich_rows rows w).2)
  /\ default ∅ (w_rev_json w) ⊆ default ∅ (w_rev_json (geocode_and_enrich_rows rows w).2).
Proof.
  destruct (geocode_and_enrich_rows_loop rows w) as (_ & Hg & Hr & _).
  rewrite Hg, Hr.
  destruct (get_center_latlon_world w) as [(_ & Hg0 & Hr0 & _) _].
  pose proof (enrich_loop_caches (get_center_latlon w).1 rows (default ∅ (w_geo_json w))
                (default ∅ (w_rev_json w)) [] (get_center_latlon w).2) as H.
  unfold cache_ahead, files_grow in H. rewrite Hg0, Hr0 in H. by apply H.
Qed.

End LoopFacts.

Section EnrichedListFacts.
Context {UD : UnicodeData} {LB : Libs} {RM : Remote}.

(** *** Order and content of the enriched list *)

Lemma enrich_row_scraped c r gc rc w r' :
  (enrich_row c r gc rc w).1.1.1 = Some r' -> scraped_fields r' = scraped_fields r.
Proof.
  unfold enrich_row, mbind, M_bind, mret, M_ret.
  destruct (resolve_latlon r gc w) as [[[[la lo]|] gc1] w1]; simpl; [|done].
  destruct (negb _); simpl; [done|].
  destruct (resolve_municipality la lo rc w1) as [[mun rc1] w2]; simpl.
  by intros [= <-].
Qed.

Lemma enrich_loop_sublist c rows :
  forall gc rc enriched w,
    exists l,
      map scraped_fields (enrich_loop c rows gc rc enriched w).1
      = map scraped_fields enriched ++ l
      /\ l `sublist_of` map scraped_fields rows.
Proof.
  induction rows as [|r rows IH]; intros gc rc enriched w; simpl.
  - exists []. by rewrite app_nil_r.
  - unfold mbind, M_bind.
    pose proof (enrich_row_scraped c r gc rc w) as Hrow.
    destruct (enrich_row c r gc rc w) as [[[[r'|] gc1] rc1] w1]; simpl in *.
    + destruct (IH gc1 rc1 (enriched ++ [r']) w1) as (l & Hl & Hsub).
      exists (scraped_fields r :: l). split; [|by constructor].
      rewrite Hl, map_app, <- app_assoc. simpl. by rewrite (Hrow r').
    + destruct (IH gc1 rc1 enriched w1) as (l & Hl & Hsub).
      exists l. split; [done|]. by constructor.
Qed.

(** X8: The enrichment neither invents, nor repeats, nor reorders records: what
    the extractor found of the enriched records is a subsequence of what it
    found of the records given. *)
Theorem enrichment_keeps_records_and_order (rows : list Row) (w : World) :
  map scraped_fields (geocode_and_enrich_rows rows w).1
    `sublist_of` map scraped_fields rows.
Proof.
  destruct (geocode_and_enrich_rows_loop rows w) as (-> & _).
  destruct (enrich_loop_sublist (get_center_latlon w).1 rows (default ∅ (w_geo_json w))
              (default ∅ (w_rev_json w)) [] (get_center_latlon w).2) as (l & -> & Hl).
  done.
Qed.

(** *** Requests when the coordinates are cached *)

Lemma resolve_municipality_calls (la lo : Q) (rc : gmap pystr pystr) (w : World) :
  exists revs,
    w_calls (resolve_municipality la lo rc w).2 = w_calls w ++ map EvReverse revs.
Proof.
  unfold resolve_municipality. cbv zeta.
  destruct (rc !! _) as [m|]; simpl.
  { exists []. simpl. by rewrite app_nil_r. }
  unfold mbind, M_bind, mret, M_ret, reverse, with_remote.
  exists [(la, lo)].
  by destruct (nominatim_reverse (la, lo) (w_remote w)) as [ [ | | [ | addr ] ] rm ].
Qed.

Lemma enrich_row_cached c r gc rc w latlon :
  gc !! url r = Some latlon ->
  (enrich_row c r gc rc w).1.1.2 = gc
  /\ exists revs, w_calls (enrich_row c r gc rc w).2 = w_calls w ++ map EvReverse revs.
Proof.
  intros Hurl. unfold enrich_row, resolve_latlon, cached_latlon.
  rewrite Hurl. unfold mbind, M_bind, mret, M_ret. destruct latlon as [la lo]; simpl.
  destruct (negb _); simpl.
  { split; [done|]. exists []. simpl. by rewrite app_nil_r. }
  pose proof (resolve_municipality_calls la lo rc w) as Hcalls.
  by destruct (resolve_municipality la lo rc w) as [[mun rc1] w2].
Qed.

Lemma enrich_loop_cached (c : Q * Q) (rows : list Row) (gc : gmap pystr (Q * Q)) :
  Forall (fun r => is_Some (gc !! url r)) rows ->
  forall rc enriched w,
    exists revs,
      w_calls (enrich_loop c rows gc rc enriched w).2 = w_calls w ++ map EvReverse revs.
Proof.
  induction 1 as [|r rows [ll Hr] _ IH]; intros rc enriched w; simpl.
  { exists []. simpl. by rewrite app_nil_r. }
  unfold mbind, M_bind.
  pose proof (enrich_row_cached c r gc rc w ll Hr) as [Hgc (revs & Hcalls)].
  destruct (enrich_row c r gc rc w) as [[[out gc1] rc1] w1]; simpl in *. subst gc1.
  assert (H : forall e, exists revs',
               w_calls (enrich_loop c rows gc rc1 e w1).2 = w_calls w ++ map EvReverse revs').
  { intros e. destruct (IH rc1 e w1) as (revs' & ->).
    exists (revs ++ revs'). by rewrite Hcalls, map_app, app_assoc. }
  destruct out; apply H.
Qed.

(** X9: When the cache file holds the URL of every record given, the only
    forward request the enrichment sends is the one for the centre; all the
    other requests are reverse lookups. *)
Theorem cached_urls_need_no_forward_request (rows : list Row) (w : World) :
  Forall (fun r => is_Some (default ∅ (w_geo_json w) !! url r)) rows ->
  exists answer revs,
    w_calls (geocode_and_enrich_rows rows w).2
    = w_calls w ++ EvGeocode CENTER_NAME answer :: map EvReverse revs.
Proof.
  intros Hrows.
  destruct (geocode_and_enrich_rows_loop rows w) as (_ & _ & _ & _ & ->).
  destruct (get_center_latlon_world w) as [_ (answer & Hcenter)].
  destruct (enrich_loop_cached (get_center_latlon w).1 rows _ Hrows
              (default ∅ (w_rev_json w)) [] (get_center_latlon w).2) as (revs & ->).
  exists answer, revs. by rewrite Hcenter, <- app_assoc.
Qed.

(** *** Rounding of the distance *)




End EnrichedListFacts.

(** ** Snapshot files *)

Section SnapshotFacts.
Context {UD : UnicodeData} {LB : Libs} {RM : Remote}.

(** *** Reading back what was written *)

Lemma csv_record_url (r : Row) :
  dictreader_get COLUMNS (csv_record r) (u "url") = Some (url r).
Proof. vm_compute. reflexivity. Qed.

Lemma csv_record_not_empty (r : Row) : csv_record r <> [].
Proof. vm_compute. discriminate. Qed.

Lemma dictreader_rows_written (rows : list Row) :
  dictreader_rows (COLUMNS :: map csv_record rows) = map csv_record rows.
Proof.
  unfold dictreader_rows. cbn [tail].
  induction rows as [|r rows IH]; [done|].
  cbn [map]. rewrite filter_cons_True by apply csv_record_not_empty.
  by rewrite IH.
Qed.

Lemma prev_urls_of_records (fieldnames : list pystr) (records : list (list pystr))
  (path : pystr) (w : World) :
  w_csv w !! path = Some (fieldnames :: records) ->
  forall x,
    x ∈ (load_prev_urls path w).1 <->
    exists rec, In rec records /\ rec <> []
                /\ startswith (default [] (dictreader_get fieldnames rec (u "url")))
                              (u "http") = true
                /\ x = strip (default [] (dictreader_get fieldnames rec (u "url"))).
Proof.
  intros Hfile x. unfold load_prev_urls. rewrite Hfile. cbn [fst hd].
  rewrite elem_of_list_to_set, list_elem_of_In, in_map_iff.
  unfold dictreader_rows. cbn [tail]. split.
  - intros (rec & <- & Hrec).
    apply list_elem_of_In, list_elem_of_filter in Hrec as [Hhttp Hrec].
    apply list_elem_of_filter in Hrec as [Hne Hrec].
    exists rec. by rewrite <- list_elem_of_In.
  - intros (rec & Hrec & Hne & Hhttp & ->). exists rec. split; [done|].
    apply list_elem_of_In, list_elem_of_filter. split; [done|].
    apply list_elem_of_filter. by rewrite list_elem_of_In.
Qed.

(** X11: The URL set read back from a file [write_csv] has just written holds
    exactly the URLs of the records written that start with "http", each
    stripped of surrounding whitespace. *)
Theorem written_urls_are_read_back (path : pystr) (rows : list Row) (w : World) :
  forall x,
    x ∈ (load_prev_urls path (write_csv path rows w).2).1 <->
    exists r, In r rows /\ startswith (url r) (u "http") = true /\ x = strip (url r).
Proof.
  intros x.
  rewrite (prev_urls_of_records COLUMNS (map csv_record rows) path);
    [|apply lookup_insert_eq].
  split.
  - intros (rec & Hrec & _ & Hhttp & ->).
    apply in_map_iff in Hrec as (r & <- & Hr).
    rewrite csv_record_url in *. by exists r.
  - intros (r & Hr & Hhttp & ->). exists (csv_record r).
    rewrite csv_record_url. repeat split; [|apply csv_record_not_empty|done].
    apply in_map_iff. by exists r.
Qed.

Lemma last_index_absent (key : pystr) (fieldnames : list pystr) :
  ~ In key fieldnames -> forall i, last_index key fieldnames i None = None.
Proof.
  induction fieldnames as [|f fieldnames IH]; intros Hnot i; simpl; [done|].
  unfold pystr_eqb. case_bool_decide as Hf.
  - exfalso. apply Hnot. by left.
  - apply IH. intros H. apply Hnot. by right.
Qed.

(** X12: A previous snapshot whose header has no column "url" gives the empty
    URL set, whatever its records are. *)
Theorem snapshot_without_url_column_is_empty (path : pystr) (w : World)
  (fieldnames : list pystr) (records : list (list pystr)) :
  w_csv w !! path = Some (fieldnames :: records) ->
  ~ In (u "url") fieldnames ->
  (load_prev_urls path w).1 = ∅.
Proof.
  intros Hfile Hnot. apply set_eq. intros x.
  rewrite (prev_urls_of_records fieldnames records path w Hfile).
  rewrite elem_of_empty. split; [|done].
  intros (rec & _ & _ & Hhttp & _).
  unfold dictreader_get in Hhttp. by rewrite last_index_absent in Hhttp.
Qed.

End SnapshotFacts.

(** ** Extraction and the detail check *)

Section ScrapeFacts.
Context {UD : UnicodeData} {LB : Libs} {RM : Remote}.

Lemma scrape_anchor_record (search_url site_host now : pystr) (a : Anchor) (r : Row) :
  scrape_anchor search_url site_host now a = Some r -> scraped_record site_host r.
Proof.
  unfold scrape_anchor. cbv zeta.
  destruct (negb (truthy (a_href a)) || _) eqn:E1; [done|].
  destruct (existsb _ SKIP_WORDS) eqn:E2; [done|].
  destruct (negb (is_allowed_detail_url _ _)) eqn:E3; [done|].
  destruct (negb (keyword_ok _)); [done|].
  intros [= <-]. unfold scraped_record.
  cbn [source title url municipality lat lon distance_km].
  apply orb_false_iff in E1 as [_ E1]. apply Nat.ltb_ge in E1.
  apply negb_false_iff in E3. done.
Qed.

Lemma url_dict_values_in (rows : list Row) (r : Row) :
  In r (dict_values (url_dict rows)) -> In r rows.
Proof.
  intros Hr. apply (proj2 (proj2 (proj2 (url_dict_spec rows)))) in Hr
    as (pre & post & -> & _).
  apply in_app_iff. right. by left.
Qed.

Lemma scrape_search_page_from_anchor (search_url html : pystr) (w : World) (r : Row) :
  In r (scrape_search_page search_url html w).1 ->
  exists now a, scrape_anchor search_url (lower (urlparse_netloc search_url)) now a = Some r.
Proof.
  unfold scrape_search_page, mbind, M_bind, mret, M_ret, with_remote.
  destruct (utcnow (w_remote w)) as [now rm]. cbn [fst snd]. cbv zeta.
  intros Hr. apply url_dict_values_in, list_elem_of_In in Hr.
  apply list_elem_of_omap in Hr as (a & _ & Ha). by exists now, a.
Qed.

(** X13: Every record the extractor returns for a page is a detail link of the
    site of that page: its source is the host of the page, its lower-cased
    URL matches the detail pattern of that host and holds none of the words
    "mailto:", "tel:", "javascript:", "privacy", "cookie", "contact",
    "login", "inloggen", its title has at least four characters, and its
    municipality, coordinates and distance are unset. *)
Theorem scraped_records_are_detail_links (search_url html : pystr) (w : World) :
  Forall (scraped_record (lower (urlparse_netloc search_url)))
         (scrape_search_page search_url html w).1.
Proof.
  apply Forall_forall. intros r Hr.
  apply list_elem_of_In, scrape_search_page_from_anchor in Hr as (now & a & Ha).
  by apply scrape_anchor_record in Ha.
Qed.

(** X14: A page of a host that is neither funda.nl nor woonpleinlimburg.nl
    yields no record, whatever its anchors are. *)
Theorem unknown_host_yields_nothing (search_url html : pystr) (w : World) :
  contains (lower (urlparse_netloc search_url)) (u "funda.nl") = false ->
  contains (lower (urlparse_netloc search_url)) (u "woonpleinlimburg.nl") = false ->
  (scrape_search_page search_url html w).1 = [].
Proof.
  intros Hf Hw.
  destruct (scrape_search_page search_url html w).1 as [|r rows] eqn:Hout; [done|].
  destruct (scrape_search_page_from_anchor search_url html w r) as (now & a & Ha).
  { rewrite Hout. by left. }
  apply scrape_anchor_record in Ha as (_ & _ & Hallowed & _).
  unfold is_allowed_detail_url in Hallowed. by rewrite Hf, Hw in Hallowed.
Qed.

Lemma filter_bungalows_funda (rows : list Row) :
  Forall (fun r => contains (source r) (u "funda.nl") = true) rows ->
  forall filtered w, filter_bungalows rows filtered w = (filtered ++ rows, w).
Proof.
  induction 1 as [|r rows Hr _ IH]; intros filtered w; simpl.
  - by rewrite app_nil_r.
  - rewrite Hr, IH. by rewrite <- app_assoc.
Qed.

(** X15: The records of a funda.nl page pass the detail check as they are: no
    detail page is fetched and nothing else happens. *)
Theorem funda_records_skip_the_detail_check (search_url html : pystr) (w w' : World) :
  contains (lower (urlparse_netloc search_url)) (u "funda.nl") = true ->
  filter_bungalows (scrape_search_page search_url html w).1 [] w'
  = ((scrape_search_page search_url html w).1, w').
Proof.
  intros Hf. apply filter_bungalows_funda.
  apply Forall_forall. intros r Hr.
  apply list_elem_of_In, scrape_search_page_from_anchor in Hr as (now & a & Ha).
  by apply scrape_anchor_record in Ha as (-> & _).
Qed.

End ScrapeFacts.

(** ** The map of a run *)

Section MapFacts.
Context {UD : UnicodeData} {LB : Libs} {RM : Remote}.

Lemma gather_enriched_is_enrichment (sites : list pystr) (w : World) :
  exists rows' w', gather_enriched sites w = geocode_and_enrich_rows rows' w'.
Proof.
  unfold gather_enriched, mbind, M_bind.
  destruct (scrape_sites sites [] w) as [all_rows w1]. cbv zeta.
  destruct (filter_bungalows (dedup_rows all_rows) [] w1) as [filtered w2].
  by exists filtered, w2.
Qed.

Lemma enriched_have_coords (rows : list Row) (w : World) :
  Forall (fun r => is_Some (lat r) /\ is_Some (lon r)) (geocode_and_enrich_rows rows w).1.
Proof.
  destruct (geocode_and_enrich_rows_loop rows w) as (-> & _).
  eapply Forall_impl.
  - apply enrich_loop_within. constructor.
  - intros r (la & lo & d & -> & -> & _). eauto.
Qed.

Lemma with_coords_all (rows : list Row) :
  Forall (fun r => is_Some (lat r) /\ is_Some (lon r)) rows ->
  Forall2 (fun p r => p.1 = r /\ lat r = Some p.2.1 /\ lon r = Some p.2.2)
          (with_coords rows) rows.
Proof.
  induction 1 as [|r rows [[la Hla] [lo Hlo]] _ IH]; [constructor|].
  rewrite with_coords_cons, Hla, Hlo. constructor; [|done].
  by rewrite Hla, Hlo.
Qed.

Lemma markers_at_coords (ps : list (Row * (Q * Q))) (rs : list Row) :
  Forall2 (fun p r => p.1 = r /\ lat r = Some p.2.1 /\ lon r = Some p.2.2) ps rs ->
  Forall2 (fun mk r => lat r = Some (mk_location mk).1 /\ lon r = Some (mk_location mk).2)
          (map marker_of ps) rs.
Proof.
  induction 1 as [|p r ps rs (_ & Hla & Hlo) _ IH]; [constructor|].
  cbn [map]. by constructor.
Qed.

Lemma write_map_markers (rows : list Row) (w : World) :
  with_coords rows <> [] ->
  exists doc,
    w_html (write_map rows w).2 = <[OUT_MAP_HTML := doc]> (w_html w)
    /\ map_markers doc = map marker_of (with_coords rows).
Proof.
  unfold write_map. cbv zeta.
  destruct (with_coords rows) as [|p ps]; [done|]. intros _.
  unfold save_map, print, mbind, M_bind. cbn [fst snd w_html].
  eexists. split; [reflexivity|]. done.
Qed.

Lemma run_sites_ends_in_write_map (sites : list pystr) (w : World) :
  sites <> [] ->
  exists w5,
    w_html w5 = w_html w
    /\ (run_sites sites w).2 = (write_map (gather_enriched sites w).1 w5).2.
Proof.
  intros Hsites. destruct sites as [|site sites]; [done|].
  unfold run_sites. set (ss := site :: sites). clearbody ss.
  unfold mbind, M_bind.
  pose proof (load_prev_urls_world OUT_SNAPSHOT_CSV w) as Hw.
  destruct (load_prev_urls OUT_SNAPSHOT_CSV w) as [prev w0]. cbn [snd] in Hw. subst w0.
  pose proof (keeps_html_gather_enriched ss w) as Hhtml.
  destruct (gather_enriched ss w) as [enriched w1]. cbn [fst snd] in *. cbv zeta.
  unfold write_csv, print. cbn [fst snd].
  eexists. split; [|reflexivity]. exact Hhtml.
Qed.

(** X16: After a run with at least one enriched record, the map at
    [OUT_MAP_HTML] has one marker for each record of the snapshot, in the
    order of the snapshot, at the coordinates of the record. *)
Theorem map_has_a_marker_per_record (sites : list pystr) (w : World) :
  sites <> [] ->
  (gather_enriched sites w).1 <> [] ->
  exists doc,
    w_html (run_sites sites w).2 !! OUT_MAP_HTML = Some doc
    /\ Forall2 (fun mk r => lat r = Some (mk_location mk).1
                            /\ lon r = Some (mk_location mk).2)
               (map_markers doc) (gather_enriched sites w).1.
Proof.
  intros Hsites Hsome.
  destruct (run_sites_ends_in_write_map sites w Hsites) as (w5 & _ & ->).
  assert (Hcoords : Forall2 (fun p r => p.1 = r /\ lat r = Some p.2.1 /\ lon r = Some p.2.2)
                            (with_coords (gather_enriched sites w).1)
                            (gather_enriched sites w).1).
  { apply with_coords_all.
    destruct (gather_enriched_is_enrichment sites w) as (rows' & w' & ->).
    apply enriched_have_coords. }
  destruct (write_map_markers (gather_enriched sites w).1 w5) as (doc & -> & Hmk).
  { intros Hnil. rewrite Hnil in Hcoords. inversion Hcoords as [Hrows|]. congruence. }
  exists doc. split; [apply lookup_insert_eq|].
  rewrite Hmk. by apply markers_at_coords.
Qed.

End MapFacts.

(** ** URLs of the snapshot *)

Section UniqueFacts.
Context {UD : UnicodeData} {LB : Libs} {RM : Remote}.

Lemma filter_bungalows_sublist (rows : list Row) :
  forall filtered w,
    exists l, (filter_bungalows rows filtered w).1 = filtered ++ l /\ l `sublist_of` rows.
Proof.
  induction rows as [|r rows IH]; intros filtered w; simpl.
  - exists []. by rewrite app_nil_r.
  - destruct (contains (source r) (u "funda.nl")).
    + destruct (IH (filtered ++ [r]) w) as (l & -> & Hl).
      exists (r :: l). split; [by rewrite <- app_assoc|by constructor].
    + unfold mbind, M_bind.
      destruct (is_bungalow_detail (url r) (source r) w) as [[|] w1].
      * destruct (IH (filtered ++ [r]) w1) as (l & -> & Hl).
        exists (r :: l). split; [by rewrite <- app_assoc|by constructor].
      * destruct (IH filtered w1) as (l & -> & Hl).
        exists l. split; [done|by constructor].
Qed.

(** X17: The enriched records of a run have pairwise different URLs: the
    snapshot never lists a URL twice. *)
Theorem snapshot_urls_are_unique (sites : list pystr) (w : World) :
  NoDup (map url (gather_enriched sites w).1).
Proof.
  unfold gather_enriched, mbind, M_bind.
  destruct (scrape_sites sites [] w) as [all_rows w1]. cbv zeta.
  pose proof (filter_bungalows_sublist (dedup_rows all_rows) [] w1) as (l & Hl & Hsub).
  destruct (filter_bungalows (dedup_rows all_rows) [] w1) as [filtered w2].
  cbn [fst] in Hl. simpl in Hl. subst l.
  destruct (geocode_and_enrich_rows_loop filtered w2) as (-> & _).
  destruct (enrich_loop_sublist (get_center_latlon w2).1 filtered
              (default ∅ (w_geo_json w2)) (default ∅ (w_rev_json w2)) []
              (get_center_latlon w2).2) as (l & Hl & Hsub2).
  simpl in Hl.
  assert (Hurl : forall rows : list Row, map url rows = snd <$> map scraped_fields rows).
  { intros rows. induction rows as [|r rows IH]; [done|]. simpl. by rewrite IH. }
  rewrite Hurl, Hl.
  eapply sublist_NoDup; [|apply fmap_sublist, Hsub2].
  rewrite <- Hurl.
  eapply sublist_NoDup; [|apply (fmap_sublist url), Hsub].
  apply (url_dict_first_seen_wins all_rows).
Qed.

End UniqueFacts.

(** ** Worked examples *)

Section FurtherExamples.
#[local] Existing Instances Demo.latin1 Demo.libs Demo.remote_site.

Lemma dropped_after_asking_for_the_fallback_witness :
  In (EvGeocode (u "Limburg, Nederland") None)
     (w_calls (resolve_latlon Demo.row_nowhere ∅ Demo.world0).2).
Proof.
  assert (H : (resolve_latlon Demo.row_nowhere ∅ Demo.world0).1.1 = None)
    by (vm_compute; reflexivity).
  destruct (dropped_after_asking_for_the_fallback Demo.row_nowhere ∅ Demo.world0 H)
    as (H1 & _).
  exact H1.
Defined.

Lemma cached_urls_need_no_forward_request_witness :
  exists answer revs,
    w_calls (geocode_and_enrich_rows [Demo.row0] (run Demo.world0).2).2
    = w_calls (run Demo.world0).2 ++ EvGeocode CENTER_NAME answer :: map EvReverse revs.
Proof.
  apply (cached_urls_need_no_forward_request [Demo.row0] (run Demo.world0).2).
  constructor; [|constructor].
  apply (bool_decide_unpack _). vm_compute. exact I.
Defined.

Lemma snapshot_without_url_column_is_empty_witness :
  (load_prev_urls OUT_SNAPSHOT_CSV Demo.world_without_url_column).1 = ∅.
Proof.
  apply (snapshot_without_url_column_is_empty OUT_SNAPSHOT_CSV
           Demo.world_without_url_column [u "title"; u "link"]
           [[u "Rendierlaan 6"; Demo.helmond_url]]).
  - vm_compute. reflexivity.
  - vm_compute. intros [H|[H|[]]]; discriminate H.
Defined.

Lemma unknown_host_yields_nothing_witness :
  (scrape_search_page Demo.unknown_site Demo.page Demo.world0).1 = [].
Proof.
  apply (unknown_host_yields_nothing Demo.unknown_site Demo.page Demo.world0).
  - vm_compute. reflexivity.
  - vm_compute. reflexivity.
Defined.

Lemma funda_records_skip_the_detail_check_witness :
  filter_bungalows (scrape_search_page Demo.site Demo.page Demo.world0).1 [] Demo.world0
  = ((scrape_search_page Demo.site Demo.page Demo.world0).1, Demo.world0).
Proof.
  apply (funda_records_skip_the_detail_check Demo.site Demo.page Demo.world0 Demo.world0).
  vm_compute. reflexivity.
Defined.

Lemma map_has_a_marker_per_record_witness :
  exists doc,
    w_html (run_sites SITES Demo.world0).2 !! OUT_MAP_HTML = Some doc
    /\ Forall2 (fun mk r => lat r = Some (mk_location mk).1
                            /\ lon r = Some (mk_location mk).2)
               (map_markers doc) (gather_enriched SITES Demo.world0).1.
Proof.
  apply (map_has_a_marker_per_record SITES Demo.world0).
  - done.
  - vm_compute. discriminate.
Defined.

End FurtherExamples.
